(** * Atomic Chess: a shallow embedding of [ChessVar.py] and its properties

    The development follows the layout of the Python module:
    - the Python primitives the module relies on (list indexing with
      negative indices and [IndexError], [range], [int], [ord]);
    - the piece classes with their [is_move_valid] predicates;
    - the [ChessVar] class: [make_move], [change_turn],
      [is_own_king_exploded], [is_opponent_king_exploded],
      [execute_explosion];
    - the vocabulary of the properties, then the lemmas on indexing, loops,
      movement rules and the structure of [make_move];
    - the properties of the rule engine.

    Python [str] values are modelled by [string]: characters are code points
    below 256. *)

From Stdlib Require Import ZArith Lia Bool String Ascii List DecimalString.
From stdpp Require Import base list.
Import ListNotations.

Open Scope Z_scope.

(* ================================================================== *)
(** ** Python primitives *)

(** The exceptions the module can raise.  [FuelExhausted] is not a Python
    exception: it marks a [while] loop of the model that ran out of fuel;
    [make_move_fuel] shows that it never occurs. *)
Inductive Exception : Type :=
  | IndexError
  | ValueError
  | FuelExhausted.

Inductive result (A : Type) : Type :=
  | Ok (a : A)
  | Raise (e : Exception).

Arguments Ok {A} a.
Arguments Raise {A} e.

Definition bind {A B : Type} (r : result A) (k : A -> result B) : result B :=
  match r with
  | Ok a => k a
  | Raise e => Raise e
  end.

Notation "'do' x <- e ;; k" := (bind e (fun x => k))
  (at level 10, x name, e at level 99, k at level 200).

(** [l[i]] on a sequence of length [len]: the position read, or [IndexError]. *)
Definition py_index (len i : Z) : result Z :=
  if (0 <=? i) && (i <? len) then Ok i
  else if (- len <=? i) && (i <? 0) then Ok (i + len)
  else Raise IndexError.

Definition list_getitem {A : Type} (l : list A) (i : Z) : result A :=
  do k <- py_index (Z.of_nat (length l)) i ;;
  match l !! Z.to_nat k with
  | Some x => Ok x
  | None => Raise IndexError
  end.

Definition list_setitem {A : Type} (l : list A) (i : Z) (v : A)
  : result (list A) :=
  do k <- py_index (Z.of_nat (length l)) i ;;
  Ok (<[Z.to_nat k := v]> l).

(** [s[i]] for a literal index [i >= 0]. *)
Definition str_getitem (s : string) (i : nat) : result ascii :=
  match String.get i s with
  | Some c => Ok c
  | None => Raise IndexError
  end.

Definition ord (c : ascii) : Z := Z.of_N (N_of_ascii c).

(** [int(c)] for a one-character string. *)
Definition int (c : ascii) : result Z :=
  if (48 <=? ord c) && (ord c <=? 57) then Ok (ord c - 48)
  else Raise ValueError.

(** [range(start, stop, step)]; the module only uses steps 1 and -1. *)
Definition py_range (start stop step : Z) : list Z :=
  let n := if 0 <? step then (stop - start + step - 1) / step
           else (start - stop - step - 1) / (- step) in
  map (fun k => start + Z.of_nat k * step) (seq 0 (Z.to_nat n)).

(** [for x in l: if body(x): return True] followed by [return False]. *)
Fixpoint for_any (l : list Z) (body : Z -> result bool) : result bool :=
  match l with
  | [] => Ok false
  | x :: rest =>
      do hit <- body x ;;
      if hit then Ok true else for_any rest body
  end.

(* ================================================================== *)
(** ** Pieces *)

Inductive Color : Type := White | Black.

Inductive Kind : Type := Pawn | Rook | Knight | Bishop | Queen | King.

Record Piece : Type := mkPiece { kind : Kind; get_color : Color }.

Definition color_eqb (c1 c2 : Color) : bool :=
  match c1, c2 with
  | White, White | Black, Black => true
  | _, _ => false
  end.

Definition color_char (c : Color) : ascii :=
  match c with White => "w"%char | Black => "b"%char end.

Definition kind_char (k : Kind) : ascii :=
  match k with
  | Pawn => "P" | Rook => "R" | Knight => "N"
  | Bishop => "B" | Queen => "Q" | King => "K"
  end%char.

(** ['P_' + self._color] and its siblings. *)
Definition get_symbol (p : Piece) : string :=
  String (kind_char (kind p)) (String "_"%char (String (color_char (get_color p)) EmptyString)).

(** [piece.get_symbol()[0] == c] *)
Definition symbol_head_is (p : Piece) (c : ascii) : bool :=
  match String.get 0 (get_symbol p) with
  | Some h => Ascii.eqb h c
  | None => false
  end.

(** A square of the board: [None] or a piece. *)
Abbreviation Square := (option Piece).
Abbreviation Row := (list (option Piece)).
Abbreviation Board := (list (list (option Piece))).

Definition is_None (sq : Square) : bool :=
  match sq with None => true | Some _ => false end.

(** [board[row][column]] *)
Definition board_get (board : Board) (row column : Z) : result Square :=
  do r <- list_getitem board row ;;
  list_getitem r column.

(** [Pawn.is_move_valid] *)
Definition Pawn_is_move_valid (color : Color)
    (row_from column_from row_to column_to : Z)
    (square_to : Square) (board : Board) : result bool :=
  let capture :=
    if negb (is_None square_to) && (Z.abs (column_from - column_to) =? 1) then
      match color with
      | White => if row_from - row_to =? 1 then true else false
      | Black => if row_to - row_from =? 1 then true else false
      end
    else false in
  if is_None square_to && (column_from =? column_to) then
    match color with
    | White =>
        do two <- (if (row_from =? 6) && (row_from - row_to =? 2)
                then do sq <- board_get board (row_from - 1) column_from ;; Ok (is_None sq)
                else Ok false) ;;
        if two then Ok true
        else if row_from - row_to =? 1 then Ok true
        else Ok capture
    | Black =>
        do two <- (if (row_from =? 1) && (row_to - row_from =? 2)
                then do sq <- board_get board (row_from + 1) column_from ;; Ok (is_None sq)
                else Ok false) ;;
        if two then Ok true
        else if row_to - row_from =? 1 then Ok true
        else Ok capture
    end
  else Ok capture.

(** [Rook.is_move_valid] *)
Definition Rook_is_move_valid
    (row_from column_from row_to column_to : Z)
    (square_to : Square) (board : Board) : result bool :=
  if column_from =? column_to then
    let step := if row_from <? row_to then 1 else -1 in
    do blocked <- for_any (py_range (row_from + step) row_to step)
                 (fun row => do sq <- board_get board row column_from ;;
                             Ok (negb (is_None sq))) ;;
    Ok (negb blocked)
  else if row_from =? row_to then
    let step := if column_from <? column_to then 1 else -1 in
    do blocked <- for_any (py_range (column_from + step) column_to step)
                 (fun column => do sq <- board_get board row_from column ;;
                                Ok (negb (is_None sq))) ;;
    Ok (negb blocked)
  else Ok false.

(** [Knight.is_move_valid] *)
Definition Knight_is_move_valid
    (row_from column_from row_to column_to : Z)
    (square_to : Square) (board : Board) : result bool :=
  let two_by_one := (Z.abs (column_from - column_to) =? 2)
                    && (Z.abs (row_from - row_to) =? 1) in
  let one_by_two := (Z.abs (column_from - column_to) =? 1)
                    && (Z.abs (row_from - row_to) =? 2) in
  Ok (two_by_one || one_by_two).

(** The [while] loop of [Bishop.is_move_valid]:
    [while next_row != row_to and next_column != column_to]. *)
Fixpoint bishop_path (fuel : nat) (board : Board)
    (row_to column_to row_step col_step next_row next_column : Z)
  : result bool :=
  if negb (next_row =? row_to) && negb (next_column =? column_to) then
    match fuel with
    | O => Raise FuelExhausted
    | S fuel' =>
        do sq <- board_get board next_row next_column ;;
        if negb (is_None sq) then Ok false
        else bishop_path fuel' board row_to column_to row_step col_step
               (next_row + row_step) (next_column + col_step)
    end
  else Ok true.

(** Every iteration of the loop reads [board[next_row]], and [next_row] moves
    one way: the loop body runs at most once per valid row index. *)
Definition bishop_fuel (board : Board) : nat := S (2 * length board).

(** [Bishop.is_move_valid] *)
Definition Bishop_is_move_valid
    (row_from column_from row_to column_to : Z)
    (square_to : Square) (board : Board) : result bool :=
  if negb (Z.abs (column_from - column_to) =? Z.abs (row_from - row_to)) then Ok false
  else
    let row_step := if row_from <? row_to then 1 else -1 in
    let col_step := if column_from <? column_to then 1 else -1 in
    bishop_path (bishop_fuel board) board row_to column_to row_step col_step
      (row_from + row_step) (column_from + col_step).

(** [Queen.is_move_valid]: both delegates are evaluated, then combined. *)
Definition Queen_is_move_valid
    (row_from column_from row_to column_to : Z)
    (square_to : Square) (board : Board) : result bool :=
  do rook_move <- Rook_is_move_valid row_from column_from row_to column_to square_to board ;;
  do bishop_move <- Bishop_is_move_valid row_from column_from row_to column_to square_to board ;;
  Ok (rook_move || bishop_move).

(** [King.is_move_valid] *)
Definition King_is_move_valid
    (row_from column_from row_to column_to : Z)
    (square_to : Square) (board : Board) : result bool :=
  Ok (is_None square_to
      && ((0 <=? Z.abs (row_from - row_to)) && (Z.abs (row_from - row_to) <=? 1))
      && ((0 <=? Z.abs (column_from - column_to)) && (Z.abs (column_from - column_to) <=? 1))).

(** Dynamic dispatch of [square_from.is_move_valid(...)]. *)
Definition is_move_valid (piece : Piece)
    (row_from column_from row_to column_to : Z)
    (square_to : Square) (board : Board) : result bool :=
  match kind piece with
  | Pawn => Pawn_is_move_valid (get_color piece) row_from column_from row_to column_to square_to board
  | Rook => Rook_is_move_valid row_from column_from row_to column_to square_to board
  | Knight => Knight_is_move_valid row_from column_from row_to column_to square_to board
  | Bishop => Bishop_is_move_valid row_from column_from row_to column_to square_to board
  | Queen => Queen_is_move_valid row_from column_from row_to column_to square_to board
  | King => King_is_move_valid row_from column_from row_to column_to square_to board
  end.

(* ================================================================== *)
(** ** The [ChessVar] class *)

Inductive GameState : Type := UNFINISHED | WHITE_WON | BLACK_WON.

Definition game_state_eqb (s1 s2 : GameState) : bool :=
  match s1, s2 with
  | UNFINISHED, UNFINISHED | WHITE_WON, WHITE_WON | BLACK_WON, BLACK_WON => true
  | _, _ => false
  end.

(** The attributes of a [ChessVar] object.  The eight rows of [_board] are
    eight distinct list objects, so assigning to a cell of one row changes no
    other row; pieces are never mutated. *)
Record ChessVar : Type := mkChessVar {
  _board : Board;
  _game_state : GameState;
  _turn : Color
}.

(** Methods run on [self], may mutate it and may raise: a state and error
    monad.  When an exception is raised, [self] stays as it was at that
    point. *)
Definition M (A : Type) : Type := ChessVar -> result A * ChessVar.

Definition ret {A : Type} (a : A) : M A := fun self => (Ok a, self).

Definition bindM {A B : Type} (m : M A) (k : A -> M B) : M B :=
  fun self =>
    match m self with
    | (Ok a, self') => k a self'
    | (Raise e, self') => (Raise e, self')
    end.

Notation "'doM' x <- e ;; k" := (bindM e (fun x => k))
  (at level 10, x name, e at level 99, k at level 200).

Definition lift {A : Type} (r : result A) : M A := fun self => (r, self).

Definition get_board : M Board := fun self => (Ok (_board self), self).
Definition get_turn : M Color := fun self => (Ok (_turn self), self).

(** [ChessVar.get_game_state] *)
Definition get_game_state : M GameState :=
  fun self => (Ok (_game_state self), self).

Definition set_turn (c : Color) : M unit :=
  fun self => (Ok tt, mkChessVar (_board self) (_game_state self) c).

Definition set_game_state (s : GameState) : M unit :=
  fun self => (Ok tt, mkChessVar (_board self) s (_turn self)).

(** [self._board[row][column] = v]: the row object is fetched, then
    updated in place. *)
Definition board_set (board : Board) (row column : Z) (v : Square)
  : result Board :=
  do r <- list_getitem board row ;;
  do r' <- list_setitem r column v ;;
  list_setitem board row r'.

Definition board_setitem (row column : Z) (v : Square) : M unit :=
  fun self =>
    match board_set (_board self) row column v with
    | Ok board' => (Ok tt, mkChessVar board' (_game_state self) (_turn self))
    | Raise e => (Raise e, self)
    end.

(** [for x in l: body(x)] *)
Fixpoint for_each (l : list Z) (body : Z -> M unit) : M unit :=
  match l with
  | [] => ret tt
  | x :: rest => doM _ <- body x ;; for_each rest body
  end.

(** [ChessVar.__init__] *)
Definition init : ChessVar :=
  let P c := Some (mkPiece Pawn c) in
  let back c := [Some (mkPiece Rook c); Some (mkPiece Knight c);
                 Some (mkPiece Bishop c); Some (mkPiece Queen c);
                 Some (mkPiece King c); Some (mkPiece Bishop c);
                 Some (mkPiece Knight c); Some (mkPiece Rook c)] in
  mkChessVar
    [ back Black;
      repeat (P Black) 8;
      repeat None 8;
      repeat None 8;
      repeat None 8;
      repeat None 8;
      repeat (P White) 8;
      back White ]
    UNFINISHED
    White.

(** [ChessVar.change_turn] *)
Definition change_turn : M unit :=
  doM turn <- get_turn ;;
  match turn with
  | White => set_turn Black
  | Black => set_turn White
  end.

(** The rows and the columns of the explosion:
    [range(max(row_to - 1, 0), min(row_to + 2, 8))]. *)
Definition blast_range (to : Z) : list Z :=
  py_range (Z.max (to - 1) 0) (Z.min (to + 2) 8) 1.

(** [ChessVar.is_own_king_exploded] *)
Definition is_own_king_exploded (row_to column_to : Z) : M bool :=
  doM board <- get_board ;;
  doM turn <- get_turn ;;
  lift (for_any (blast_range row_to) (fun row =>
          for_any (blast_range column_to) (fun column =>
            do piece <- board_get board row column ;;
            match piece with
            | Some p => Ok (symbol_head_is p "K" && color_eqb (get_color p) turn)
            | None => Ok false
            end))).

(** [ChessVar.is_opponent_king_exploded] *)
Definition is_opponent_king_exploded (row_to column_to : Z) : M bool :=
  doM board <- get_board ;;
  doM turn <- get_turn ;;
  lift (for_any (blast_range row_to) (fun row =>
          for_any (blast_range column_to) (fun column =>
            do piece <- board_get board row column ;;
            match piece with
            | Some p => Ok (symbol_head_is p "K" && negb (color_eqb (get_color p) turn))
            | None => Ok false
            end))).

(** [ChessVar.execute_explosion] *)
Definition execute_explosion (row_to column_to : Z) : M unit :=
  for_each (blast_range row_to) (fun row =>
    for_each (blast_range column_to) (fun column =>
      doM board <- get_board ;;
      doM piece <- lift (board_get board row column) ;;
      match piece with
      | Some p =>
          if negb (symbol_head_is p "P"
                   && (negb (row =? row_to) || negb (column =? column_to)))
          then board_setitem row column None
          else ret tt
      | None => ret tt
      end)).

(** [8 - int(s[1])] and [ord(s[0]) - ord('a')] *)
Definition square_row (s : string) : result Z :=
  do c <- str_getitem s 1 ;;
  do d <- int c ;;
  Ok (8 - d).

Definition square_column (s : string) : result Z :=
  do c <- str_getitem s 0 ;;
  Ok (ord c - ord "a").

(** [ChessVar.make_move] *)
Definition make_move (string_from string_to : string) : M bool :=
  doM game_state <- get_game_state ;;
  if negb (game_state_eqb game_state UNFINISHED) then ret false else
  if String.eqb string_from string_to then ret false else
  doM row_from <- lift (square_row string_from) ;;
  doM column_from <- lift (square_column string_from) ;;
  doM row_to <- lift (square_row string_to) ;;
  doM column_to <- lift (square_column string_to) ;;
  doM board <- get_board ;;
  doM square_from <- lift (board_get board row_from column_from) ;;
  doM square_to <- lift (board_get board row_to column_to) ;;
  doM turn <- get_turn ;;
  match square_from with
  | None => ret false
  | Some piece_from =>
      if negb (color_eqb (get_color piece_from) turn) then ret false else
      if negb (((0 <=? column_to) && (column_to <=? 7))
               && ((0 <=? row_to) && (row_to <=? 7))) then ret false else
      if match square_to with
         | Some p => color_eqb (get_color p) turn
         | None => false
         end then ret false else
      doM valid <- lift (is_move_valid piece_from row_from column_from
                           row_to column_to square_to board) ;;
      if valid then
        match square_to with
        | None =>
            doM _ <- board_setitem row_from column_from None ;;
            doM _ <- board_setitem row_to column_to square_from ;;
            doM _ <- change_turn ;;
            ret true
        | Some _ =>
            doM own <- is_own_king_exploded row_to column_to ;;
            if own then ret false else
            doM _ <- board_setitem row_from column_from None ;;
            doM opp <- is_opponent_king_exploded row_to column_to ;;
            doM _ <- (if opp then
                        match turn with
                        | White => set_game_state WHITE_WON
                        | Black => set_game_state BLACK_WON
                        end
                      else change_turn) ;;
            doM _ <- execute_explosion row_to column_to ;;
            ret true
        end
      else ret false
  end.

(** A sequence of calls on the same object; an exception is caught by the
    caller and play goes on. *)
Definition play (moves : list (string * string)) (self : ChessVar) : ChessVar :=
  fold_left (fun g m => snd (make_move (fst m) (snd m) g)) moves self.

(** [str(n)] for an integer [n]. *)
Definition str (n : Z) : string := NilZero.string_of_int (Z.to_int n).

Definition newline : string := String (ascii_of_nat 10) EmptyString.

(** What the body of the inner loop of [print_board] writes for a square. *)
Definition print_square (square : Square) : string :=
  match square with
  | None => String.append " . " "  "
  | Some p => String.append (get_symbol p) "  "
  end.

(** [for square in self._board[row]: ...] *)
Fixpoint print_squares (r : Row) : string :=
  match r with
  | [] => EmptyString
  | square :: rest => String.append (print_square square) (print_squares rest)
  end.

(** The outer loop of [print_board]: the text written, and how the loop
    ends.  The label of a row is written before the row is read. *)
Fixpoint print_rows (board : Board) (rows : list Z) : string * result unit :=
  match rows with
  | [] => (EmptyString, Ok tt)
  | row :: rest =>
      let label := String.append (str (8 - row)) "  " in
      match list_getitem board row with
      | Raise e => (label, Raise e)
      | Ok r =>
          let (out, res) := print_rows board rest in
          (String.append label
             (String.append (print_squares r) (String.append newline out)),
           res)
      end
  end.

(** [ChessVar.print_board]: the text written to the standard output and
    the way the call ends; the object is only read. *)
Definition print_board (self : ChessVar) : string * result unit :=
  let (out, res) := print_rows (_board self) (py_range 0 8 1) in
  match res with
  | Ok _ =>
      (String.append out
         (String.append "    a    b    c    d    e   f    g    h" newline),
       Ok tt)
  | Raise e => (out, Raise e)
  end.

(* ================================================================== *)
(** ** Vocabulary of the properties *)

(** A board as [__init__] builds it: eight rows of eight squares. *)
Definition wf_board (board : Board) : Prop :=
  length board = 8%nat /\ Forall (fun r : Row => length r = 8%nat) board.

(** The square at a position counted from the top left corner. *)
Definition cell (board : Board) (row column : Z) : Square :=
  match board !! Z.to_nat row with
  | Some r =>
      match r !! Z.to_nat column with
      | Some sq => sq
      | None => None
      end
  | None => None
  end.

(** The position a Python index between -8 and 7 reads in a list of 8. *)
Definition norm (i : Z) : Z := if i <? 0 then i + 8 else i.

(** The bounds [make_move] checks the destination against. *)
Definition on_board (row column : Z) : Prop :=
  (0 <= row <= 7) /\ (0 <= column <= 7).

(** The squares of the explosion at [(row_to, column_to)]. *)
Definition in_blast (row_to column_to row column : Z) : Prop :=
  on_board row column /\ Z.abs (row - row_to) <= 1 /\ Z.abs (column - column_to) <= 1.

(** The other side, and the game state in which a side has won. *)
Definition other (c : Color) : Color :=
  match c with White => Black | Black => White end.

Definition won (c : Color) : GameState :=
  match c with White => WHITE_WON | Black => BLACK_WON end.

(** Some square of the explosion satisfies [f]. *)
Definition blast_any (f : Z -> Z -> bool) (row_to column_to : Z) : bool :=
  existsb (fun row => existsb (fun column => f row column) (blast_range column_to))
    (blast_range row_to).

(** The square holds a piece that satisfies [pred]. *)
Definition square_has (pred : Piece -> bool) (sq : Square) : bool :=
  match sq with Some p => pred p | None => false end.

(** What the explosion at [(row_to, column_to)] leaves on the square
    [(r, c)] that held [sq]. *)
Definition blast_sq (row_to column_to r c : Z) (sq : Square) : Square :=
  match sq with
  | Some p =>
      if negb (symbol_head_is p "P"
               && (negb (r =? row_to) || negb (c =? column_to)))
      then None else sq
  | None => None
  end.

(** [self] after the squares selected by [S] have gone through the
    explosion; nothing else changes. *)
Definition exploded (row_to column_to : Z) (S : Z -> Z -> bool)
    (g g' : ChessVar) : Prop :=
  wf_board (_board g') /\ _turn g' = _turn g /\
  _game_state g' = _game_state g /\
  forall r c, on_board r c ->
    cell (_board g') r c =
      if S r c then blast_sq row_to column_to r c (cell (_board g) r c)
      else cell (_board g) r c.

(** The body of the inner loop of [execute_explosion]. *)
Definition explosion_body (row_to column_to row column : Z) : M unit :=
  doM board <- get_board ;;
  doM piece <- lift (board_get board row column) ;;
  match piece with
  | Some p =>
      if negb (symbol_head_is p "P"
               && (negb (row =? row_to) || negb (column =? column_to)))
      then board_setitem row column None
      else ret tt
  | None => ret tt
  end.

(** The direction a pawn moves in and the row it starts from. *)
Definition forward (color : Color) : Z :=
  match color with White => -1 | Black => 1 end.

Definition start_row (color : Color) : Z :=
  match color with White => 6 | Black => 1 end.

(** The squares the bishop's loop reads, counted back from the target. *)
Fixpoint path_clear (board : Board) (row_to column_to row_step col_step : Z)
    (n : nat) : result bool :=
  match n with
  | O => Ok true
  | S m =>
      do sq <- board_get board (row_to - row_step * Z.of_nat n)
                 (column_to - col_step * Z.of_nat n) ;;
      if negb (is_None sq) then Ok false
      else path_clear board row_to column_to row_step col_step m
  end.

(** The steps of the bishop's loop. *)
Definition unit_step (s : Z) : Prop := s = 1 \/ s = -1.

(** The two ways [make_move] executes a move: the relocation of a piece to
    an empty square, and the capture with its explosion. *)
Definition relocate (row_from column_from row_to column_to : Z)
    (square_from : Square) : M bool :=
  doM _ <- board_setitem row_from column_from None ;;
  doM _ <- board_setitem row_to column_to square_from ;;
  doM _ <- change_turn ;;
  ret true.

Definition capture (row_from column_from row_to column_to : Z)
    (turn : Color) : M bool :=
  doM own <- is_own_king_exploded row_to column_to ;;
  if own then ret false else
  doM _ <- board_setitem row_from column_from None ;;
  doM opp <- is_opponent_king_exploded row_to column_to ;;
  doM _ <- (if opp then
              match turn with
              | White => set_game_state WHITE_WON
              | Black => set_game_state BLACK_WON
              end
            else change_turn) ;;
  doM _ <- execute_explosion row_to column_to ;;
  ret true.

(** The bounds gate and the own-piece gate of [make_move], as written
    in the source. *)
Definition on_boardb (row column : Z) : bool :=
  ((0 <=? column) && (column <=? 7)) && ((0 <=? row) && (row <=? 7)).

Definition own_piece (turn : Color) (sq : Square) : bool :=
  match sq with
  | Some p => color_eqb (get_color p) turn
  | None => false
  end.

(** The outcomes of a call of [make_move]. *)
Inductive make_move_outcome (g : ChessVar) (string_from string_to : string)
  : result bool * ChessVar -> Prop :=
  | outcome_reject :
      make_move_outcome g string_from string_to (Ok false, g)
  | outcome_raise (e : Exception) :
      e <> FuelExhausted ->
      make_move_outcome g string_from string_to (Raise e, g)
  | outcome_execute (row_from column_from row_to column_to : Z)
      (p : Piece) (square_to : Square) :
      _game_state g = UNFINISHED ->
      square_row string_from = Ok row_from ->
      square_column string_from = Ok column_from ->
      square_row string_to = Ok row_to ->
      square_column string_to = Ok column_to ->
      board_get (_board g) row_from column_from = Ok (Some p) ->
      board_get (_board g) row_to column_to = Ok square_to ->
      get_color p = _turn g ->
      on_board row_to column_to ->
      own_piece (_turn g) square_to = false ->
      is_move_valid p row_from column_from row_to column_to
        square_to (_board g) = Ok true ->
      make_move_outcome g string_from string_to
        (match square_to with
         | None => relocate row_from column_from row_to column_to (Some p) g
         | Some _ => capture row_from column_from row_to column_to (_turn g) g
         end).

(** The kings the two scans of the explosion look for. *)
Definition own_king (turn : Color) (p : Piece) : bool :=
  symbol_head_is p "K" && color_eqb (get_color p) turn.

Definition opp_king (turn : Color) (p : Piece) : bool :=
  symbol_head_is p "K" && negb (color_eqb (get_color p) turn).

Definition king_in_blast (pred : Piece -> bool) (board : Board)
    (row_to column_to : Z) : bool :=
  blast_any (fun r c => square_has pred (cell board r c)) row_to column_to.

(** The position after 1. e4 e5 2. Qh5 a6, White to move. *)
Definition queen_raid : ChessVar :=
  play [("e2", "e4"); ("e7", "e5"); ("d1", "h5"); ("a7", "a6")]%string init.

(** The position after 1. e4 Nf6 2. Ke2 Ng4 3. a3 Ne3, White to move: the
    black knight on e3 stands next to the white king on e2. *)
Definition knight_visit : ChessVar :=
  play [("e2", "e4"); ("g8", "f6"); ("e1", "e2"); ("f6", "g4");
        ("a2", "a3"); ("g4", "e3")]%string init.

(** The method never reports that the model ran out of fuel. *)
Definition no_fuel {A : Type} (m : M A) : Prop :=
  forall g, fst (m g) <> Raise FuelExhausted.

(** The objects a program can hold: a fresh [ChessVar()], and what any call
    of [make_move] leaves behind, returned or raised. *)
Inductive reachable : ChessVar -> Prop :=
  | reachable_init : reachable init
  | reachable_move (g : ChessVar) (string_from string_to : string) :
      reachable g ->
      reachable (snd (make_move string_from string_to g)).

(** A king of the given colour stands on the board; the invariant of
    [make_move]. *)
Definition has_king (color : Color) (g : ChessVar) : Prop :=
  exists r c, on_board r c /\ cell (_board g) r c = Some (mkPiece King color).

Definition kings_invariant (g : ChessVar) : Prop :=
  wf_board (_board g) /\
  (_game_state g = UNFINISHED -> forall color, has_king color g).

(** At most one king of the given colour stands on the board. *)
Definition one_king (color : Color) (g : ChessVar) : Prop :=
  forall r c r' c', on_board r c -> on_board r' c' ->
    cell (_board g) r c = Some (mkPiece King color) ->
    cell (_board g) r' c' = Some (mkPiece King color) ->
    (r, c) = (r', c').

(** The invariant of [make_move] on the kings and the game state: while
    the game is unfinished both kings stand; a colour has at most one king;
    and once a side has won, the turn is with it, its king stands and the
    other king is gone. *)
Definition game_invariant (g : ChessVar) : Prop :=
  kings_invariant g /\
  (forall color, one_king color g) /\
  (forall color, _game_state g = won color ->
     _turn g = color /\ has_king color g /\ ~ has_king (other color) g).

(* ================================================================== *)
(** ** Indexing a board of eight rows of eight squares *)

Lemma bind_Ok {A B : Type} (r : result A) (k : A -> result B) (b : B) :
  bind r k = Ok b -> exists a, r = Ok a /\ k a = Ok b.
Proof. destruct r as [a|e]; simpl; [eauto | discriminate]. Qed.

Lemma norm_range (i : Z) : -8 <= i < 8 -> 0 <= norm i < 8.
Proof. unfold norm. destruct (Z.ltb_spec i 0); lia. Qed.

Lemma norm_on_board (i : Z) : 0 <= i -> norm i = i.
Proof. unfold norm. destruct (Z.ltb_spec i 0); lia. Qed.

Lemma py_index_8 (i : Z) :
  -8 <= i < 8 -> py_index 8 i = Ok (norm i).
Proof.
  intros H. unfold py_index, norm. change (Z.opp 8) with (-8).
  destruct (Z.leb_spec 0 i), (Z.ltb_spec i 8), (Z.leb_spec (-8) i),
    (Z.ltb_spec i 0); simpl; try reflexivity; lia.
Qed.

Lemma py_index_Ok (len i k : Z) :
  py_index len i = Ok k -> - len <= i < len /\ 0 <= k < len.
Proof.
  unfold py_index.
  destruct (Z.leb_spec 0 i), (Z.ltb_spec i len), (Z.leb_spec (- len) i),
    (Z.ltb_spec i 0); simpl; intros [= <-]; lia.
Qed.

Lemma py_index_Raise (len i : Z) (e : Exception) :
  py_index len i = Raise e -> e = IndexError.
Proof.
  unfold py_index.
  destruct ((0 <=? i) && (i <? len)); [discriminate|].
  destruct ((- len <=? i) && (i <? 0)); [discriminate|]. congruence.
Qed.

Lemma list_getitem_Raise {A : Type} (l : list A) (i : Z) (e : Exception) :
  list_getitem l i = Raise e -> e = IndexError.
Proof.
  unfold list_getitem.
  destruct (py_index _ i) as [k|e'] eqn:E; simpl.
  - destruct (l !! Z.to_nat k); congruence.
  - intros [= <-]. eauto using py_index_Raise.
Qed.

Lemma list_getitem_Ok_range {A : Type} (l : list A) (i : Z) (x : A) :
  list_getitem l i = Ok x -> - Z.of_nat (length l) <= i < Z.of_nat (length l).
Proof.
  unfold list_getitem. intros H.
  apply bind_Ok in H as (k & Hk & _). apply py_index_Ok in Hk. lia.
Qed.

Lemma board_get_Raise (board : Board) (row column : Z) (e : Exception) :
  board_get board row column = Raise e -> e = IndexError.
Proof.
  unfold board_get.
  destruct (list_getitem board row) as [r|e'] eqn:E; simpl.
  - apply list_getitem_Raise.
  - intros [= <-]. eauto using list_getitem_Raise.
Qed.

Lemma board_get_Ok_row (board : Board) (row column : Z) (sq : Square) :
  board_get board row column = Ok sq ->
  - Z.of_nat (length board) <= row < Z.of_nat (length board).
Proof.
  unfold board_get. intros H.
  apply bind_Ok in H as (r & Hr & _). eauto using list_getitem_Ok_range.
Qed.

Section WellFormed.

Variable board : Board.
Hypothesis Hwf : wf_board board.

Lemma wf_row (i : nat) :
  (i < 8)%nat -> exists r : Row, board !! i = Some r /\ length r = 8%nat.
Proof using Hwf.
  destruct Hwf as [Hlen Hrows]. intros Hi.
  destruct (lookup_lt_is_Some_2 board i) as [r Hr]; [lia|].
  exists r. split; [exact Hr|].
  exact (Forall_lookup_1 _ _ _ _ Hrows Hr).
Qed.

Lemma board_get_wf (row column : Z) :
  -8 <= row < 8 -> -8 <= column < 8 ->
  board_get board row column = Ok (cell board (norm row) (norm column)).
Proof using Hwf.
  intros Hr Hc. unfold board_get, list_getitem, cell.
  destruct Hwf as [Hlen _]. rewrite Hlen.
  change (Z.of_nat 8) with 8. rewrite (py_index_8 row Hr). simpl.
  destruct (wf_row (Z.to_nat (norm row))) as (r & Hrow & Hrl).
  { pose proof (norm_range row Hr). lia. }
  rewrite Hrow. simpl. rewrite Hrl.
  change (Z.of_nat 8) with 8. rewrite (py_index_8 column Hc). simpl.
  destruct (lookup_lt_is_Some_2 r (Z.to_nat (norm column))) as [sq Hsq].
  { pose proof (norm_range column Hc). lia. }
  rewrite Hsq. reflexivity.
Qed.

Lemma board_get_wf_range (row column : Z) (sq : Square) :
  board_get board row column = Ok sq ->
  (-8 <= row < 8) /\ (-8 <= column < 8).
Proof using Hwf.
  intros H. pose proof (board_get_Ok_row _ _ _ _ H) as Hr.
  destruct Hwf as [Hlen _]. rewrite Hlen in Hr. split; [lia|].
  unfold board_get in H. apply bind_Ok in H as (r & Hrow & Hcol).
  apply list_getitem_Ok_range in Hcol.
  unfold list_getitem in Hrow. apply bind_Ok in Hrow as (k & Hk & Hlk).
  destruct (board !! Z.to_nat k) as [r'|] eqn:E; [|discriminate].
  injection Hlk as ->.
  destruct Hwf as [_ Hrows].
  rewrite (Forall_lookup_1 _ _ _ _ Hrows E) in Hcol. lia.
Qed.

Lemma board_get_on_board (row column : Z) :
  on_board row column ->
  board_get board row column = Ok (cell board row column).
Proof using Hwf.
  intros [Hr Hc]. rewrite board_get_wf by lia.
  rewrite !norm_on_board by lia. reflexivity.
Qed.

Lemma board_set_wf (row column : Z) (v : Square) :
  -8 <= row < 8 -> -8 <= column < 8 ->
  exists board',
    board_set board row column v = Ok board' /\ wf_board board' /\
    forall r c, on_board r c ->
      cell board' r c =
        if (r =? norm row) && (c =? norm column) then v else cell board r c.
Proof using Hwf.
  intros Hr Hc. unfold board_set, list_getitem, list_setitem.
  destruct Hwf as [Hlen Hrows]. rewrite Hlen.
  change (Z.of_nat 8) with 8. rewrite (py_index_8 row Hr). simpl.
  pose proof (norm_range row Hr) as Hnr.
  pose proof (norm_range column Hc) as Hnc.
  destruct (wf_row (Z.to_nat (norm row))) as (r0 & Hrow & Hrl); [lia|].
  rewrite Hrow. simpl. rewrite Hrl.
  change (Z.of_nat 8) with 8. rewrite (py_index_8 column Hc). simpl.
  eexists. split; [reflexivity|]. split.
  - split.
    + rewrite length_insert. exact Hlen.
    + apply Forall_insert; [exact Hrows|]. rewrite length_insert. exact Hrl.
  - intros r c [Hr' Hc']. unfold cell.
    destruct (Z.eqb_spec r (norm row)) as [->|Hne]; simpl.
    + rewrite list_lookup_insert_eq by lia.
      destruct (Z.eqb_spec c (norm column)) as [->|Hnec].
      * rewrite list_lookup_insert_eq by lia. reflexivity.
      * rewrite list_lookup_insert_ne by lia. rewrite Hrow. reflexivity.
    + rewrite list_lookup_insert_ne by lia. reflexivity.
Qed.

End WellFormed.

(* ================================================================== *)
(** ** Ranges and loops *)

Lemma in_py_range_up (a b x : Z) : In x (py_range a b 1) <-> a <= x < b.
Proof.
  unfold py_range. simpl. rewrite Z.div_1_r, in_map_iff. split.
  - intros (k & <- & Hk). apply in_seq in Hk. lia.
  - intros H. exists (Z.to_nat (x - a)). split; [lia|]. apply in_seq. lia.
Qed.

Lemma in_py_range_down (a b x : Z) : In x (py_range a b (-1)) <-> b < x <= a.
Proof.
  unfold py_range. simpl. rewrite Z.div_1_r, in_map_iff. split.
  - intros (k & <- & Hk). apply in_seq in Hk. lia.
  - intros H. exists (Z.to_nat (a - x)). split; [lia|]. apply in_seq. lia.
Qed.

Lemma in_blast_range (to x : Z) :
  In x (blast_range to) <-> (0 <= x <= 7) /\ Z.abs (x - to) <= 1.
Proof. unfold blast_range. rewrite in_py_range_up. lia. Qed.

Lemma for_any_Ok (l : list Z) (body : Z -> result bool) (f : Z -> bool) :
  (forall x, In x l -> body x = Ok (f x)) ->
  for_any l body = Ok (existsb f l).
Proof.
  induction l as [|x l IH]; intros H; simpl; [reflexivity|].
  rewrite (H x) by (left; reflexivity). simpl.
  destruct (f x); [reflexivity|].
  apply IH. intros y Hy. apply H. right. exact Hy.
Qed.

Lemma for_any_Raise (l : list Z) (body : Z -> result bool) (e : Exception) :
  (forall x e', body x = Raise e' -> e' = IndexError) ->
  for_any l body = Raise e -> e = IndexError.
Proof.
  intros Hb. induction l as [|x l IH]; simpl; [discriminate|].
  destruct (body x) as [[|]|e'] eqn:E; simpl; try discriminate; eauto.
  intros [= <-]. eauto.
Qed.

Lemma blast_any_true (f : Z -> Z -> bool) (row_to column_to : Z) :
  blast_any f row_to column_to = true <->
  exists r c, in_blast row_to column_to r c /\ f r c = true.
Proof.
  unfold blast_any, in_blast, on_board. rewrite existsb_exists. split.
  - intros (r & Hr & H). apply existsb_exists in H as (c & Hc & H).
    apply in_blast_range in Hr, Hc. exists r, c. tauto.
  - intros (r & c & ((Hr & Hc) & Har & Hac) & H). exists r. split.
    + apply in_blast_range. tauto.
    + apply existsb_exists. exists c. split; [|exact H].
      apply in_blast_range. tauto.
Qed.

Lemma scan_wf (board : Board) (pred : Piece -> bool) (row_to column_to : Z) :
  wf_board board ->
  for_any (blast_range row_to) (fun row =>
    for_any (blast_range column_to) (fun column =>
      do piece <- board_get board row column ;;
      match piece with
      | Some p => Ok (pred p)
      | None => Ok false
      end))
  = Ok (blast_any (fun r c => square_has pred (cell board r c)) row_to column_to).
Proof.
  intros Hwf. unfold blast_any. apply for_any_Ok. intros r Hr.
  apply for_any_Ok. intros c Hc.
  apply in_blast_range in Hr, Hc.
  rewrite (board_get_on_board board Hwf) by (split; tauto). simpl.
  destruct (cell board r c); reflexivity.
Qed.

Lemma blast_sq_idem (row_to column_to r c : Z) (sq : Square) :
  blast_sq row_to column_to r c (blast_sq row_to column_to r c sq)
  = blast_sq row_to column_to r c sq.
Proof.
  unfold blast_sq. destruct sq as [p|]; [|reflexivity].
  destruct (negb _) eqn:E; [reflexivity|]. rewrite E. reflexivity.
Qed.

Ltac split4 := unfold exploded; split; [|split; [|split]].

Lemma for_each_exploded (row_to column_to : Z) (l : list Z)
    (body : Z -> M unit) (S : Z -> Z -> Z -> bool) :
  (forall x, In x l -> forall g, wf_board (_board g) ->
     exists g', body x g = (Ok tt, g') /\ exploded row_to column_to (S x) g g') ->
  forall g, wf_board (_board g) ->
  exists g', for_each l body g = (Ok tt, g') /\
    exploded row_to column_to (fun r c => existsb (fun x => S x r c) l) g g'.
Proof.
  induction l as [|x l IH]; intros Hb g Hwf; simpl.
  - exists g. split; [reflexivity|]. split4; auto.
  - destruct (Hb x (or_introl eq_refl) g Hwf) as (g1 & E1 & W1 & T1 & S1 & C1).
    destruct (IH (fun y Hy => Hb y (or_intror Hy)) g1 W1)
      as (g2 & E2 & W2 & T2 & S2 & C2).
    exists g2. unfold bindM. rewrite E1. split; [exact E2|].
    split4; try congruence.
    intros r c Hrc. rewrite (C2 r c Hrc), (C1 r c Hrc).
    destruct (S x r c); simpl; [|reflexivity].
    destruct (existsb _ l); [apply blast_sq_idem | reflexivity].
Qed.

Lemma execute_explosion_body (row_to column_to : Z) :
  execute_explosion row_to column_to =
  for_each (blast_range row_to) (fun row =>
    for_each (blast_range column_to) (explosion_body row_to column_to row)).
Proof. reflexivity. Qed.

Lemma explosion_body_wf (row_to column_to row column : Z) (g : ChessVar) :
  on_board row column -> wf_board (_board g) ->
  exists g', explosion_body row_to column_to row column g = (Ok tt, g') /\
    exploded row_to column_to (fun r c => (r =? row) && (c =? column)) g g'.
Proof.
  intros Hon Hwf.
  unfold explosion_body, bindM, get_board, lift, ret, board_setitem.
  rewrite (board_get_on_board _ Hwf) by exact Hon.
  assert (Hsame : forall sq, cell (_board g) row column = sq ->
            blast_sq row_to column_to row column sq = sq ->
            exploded row_to column_to (fun r c => (r =? row) && (c =? column)) g g).
  { intros sq Ecell Eb. split4; auto. intros r c Hrc.
    destruct (Z.eqb_spec r row) as [->|]; simpl; [|reflexivity].
    destruct (Z.eqb_spec c column) as [->|]; simpl; [|reflexivity].
    rewrite Ecell, Eb. reflexivity. }
  destruct (cell (_board g) row column) as [p|] eqn:Ecell.
  - destruct (negb _) eqn:Econd.
    + destruct Hon as [Hr Hc].
      destruct (board_set_wf _ Hwf row column None) as (b' & Eb & Wb & Cb);
        [lia|lia|].
      rewrite Eb. eexists. split; [reflexivity|].
      split4; simpl; auto.
      intros r c Hrc. rewrite (Cb r c Hrc), !norm_on_board by lia.
      destruct (Z.eqb_spec r row) as [->|]; simpl; [|reflexivity].
      destruct (Z.eqb_spec c column) as [->|]; simpl; [|reflexivity].
      rewrite Ecell. simpl. rewrite Econd. reflexivity.
    + exists g. split; [reflexivity|]. apply (Hsame (Some p) eq_refl).
      simpl. rewrite Econd. reflexivity.
  - exists g. split; [reflexivity|]. apply (Hsame None eq_refl). reflexivity.
Qed.

Lemma existsb_const_false {A : Type} (l : list A) :
  existsb (fun _ => false) l = false.
Proof. induction l; simpl; auto. Qed.

Lemma execute_explosion_wf (row_to column_to : Z) (g : ChessVar) :
  wf_board (_board g) ->
  exists g', execute_explosion row_to column_to g = (Ok tt, g') /\
    wf_board (_board g') /\ _turn g' = _turn g /\
    _game_state g' = _game_state g /\
    forall r c, on_board r c ->
      (in_blast row_to column_to r c ->
         cell (_board g') r c = blast_sq row_to column_to r c (cell (_board g) r c)) /\
      (~ in_blast row_to column_to r c ->
         cell (_board g') r c = cell (_board g) r c).
Proof.
  intros Hwf. rewrite execute_explosion_body.
  assert (Hrow : forall row, In row (blast_range row_to) ->
            forall g0, wf_board (_board g0) ->
            exists g1,
              for_each (blast_range column_to)
                (explosion_body row_to column_to row) g0 = (Ok tt, g1) /\
              exploded row_to column_to
                (fun r c => (r =? row)
                   && existsb (fun column => c =? column) (blast_range column_to))
                g0 g1).
  { intros row Hrow g0 Hwf0. apply in_blast_range in Hrow.
    destruct (for_each_exploded row_to column_to (blast_range column_to)
                (explosion_body row_to column_to row)
                (fun column r c => (r =? row) && (c =? column)))
      with (g := g0) as (g1 & E1 & W1 & T1 & S1 & C1); [|exact Hwf0|].
    - intros column Hcol g1 Hwf1. apply in_blast_range in Hcol.
      apply explosion_body_wf; [split; tauto | exact Hwf1].
    - exists g1. split; [exact E1|]. split4; auto.
      intros r c Hrc. rewrite (C1 r c Hrc).
      destruct (Z.eqb_spec r row) as [->|]; simpl; [reflexivity|].
      rewrite existsb_const_false. reflexivity. }
  destruct (for_each_exploded row_to column_to (blast_range row_to) _ _ Hrow g Hwf)
    as (g' & E & W & T & S & C).
  exists g'. split; [exact E|]. split4; auto.
  intros r c H. rewrite (C r c H). split.
  - intros (_ & Hr & Hc).
    assert (existsb (fun x => (r =? x)
              && existsb (fun column => c =? column) (blast_range column_to))
              (blast_range row_to) = true) as ->; [|reflexivity].
    apply existsb_exists. exists r. split.
    { apply in_blast_range. destruct H. tauto. }
    rewrite Z.eqb_refl. simpl.
    apply existsb_exists. exists c. split.
    { apply in_blast_range. destruct H. tauto. }
    apply Z.eqb_refl.
  - intros Hout.
    destruct (existsb _ (blast_range row_to)) eqn:Eex; [|reflexivity].
    exfalso. apply Hout.
    apply existsb_exists in Eex as (r' & Hr' & Eex).
    apply andb_true_iff in Eex as [Er Eex]. apply Z.eqb_eq in Er. subst r'.
    apply existsb_exists in Eex as (c' & Hc' & Ec). apply Z.eqb_eq in Ec.
    subst c'. apply in_blast_range in Hr', Hc'.
    split; [exact H|]. tauto.
Qed.

(* ================================================================== *)
(** ** The movement rules *)

Lemma symbol_head_is_K (p : Piece) :
  symbol_head_is p "K" = match kind p with King => true | _ => false end.
Proof. destruct p as [[] ?]; reflexivity. Qed.

Lemma symbol_head_is_P (p : Piece) :
  symbol_head_is p "P" = match kind p with Pawn => true | _ => false end.
Proof. destruct p as [[] ?]; reflexivity. Qed.

Lemma color_eqb_eq (c1 c2 : Color) : color_eqb c1 c2 = true <-> c1 = c2.
Proof. destruct c1, c2; simpl; split; congruence. Qed.

Lemma color_eqb_other (c1 c2 : Color) :
  negb (color_eqb c1 c2) = true <-> c1 = other c2.
Proof. destruct c1, c2; simpl; split; congruence. Qed.

Lemma bishop_path_steps (board : Board) (row_to column_to rs cs : Z) :
  unit_step rs -> unit_step cs ->
  forall (n fuel : nat), (n <= fuel)%nat ->
  bishop_path fuel board row_to column_to rs cs
    (row_to - rs * Z.of_nat n) (column_to - cs * Z.of_nat n)
  = path_clear board row_to column_to rs cs n.
Proof.
  intros Hrs Hcs. induction n as [|m IH]; intros fuel Hle.
  - destruct fuel; simpl; rewrite Z.mul_0_r, Z.sub_0_r, Z.eqb_refl; reflexivity.
  - destruct fuel as [|f]; [lia|].
    cbn [bishop_path path_clear].
    destruct (Z.eqb_spec (row_to - rs * Z.of_nat (S m)) row_to) as [E|_];
      [destruct Hrs; lia|].
    destruct (Z.eqb_spec (column_to - cs * Z.of_nat (S m)) column_to) as [E|_];
      [destruct Hcs; lia|].
    simpl negb. simpl andb.
    destruct (board_get board _ _) as [sq|e]; simpl; [|reflexivity].
    destruct (is_None sq); simpl; [|reflexivity].
    rewrite <- (IH f) by lia. f_equal; lia.
Qed.

Lemma bishop_path_mono (board : Board) (row_to column_to rs cs : Z) :
  forall (f1 f2 : nat) (r c : Z) (res : result bool),
  bishop_path f1 board row_to column_to rs cs r c = res ->
  res <> Raise FuelExhausted -> (f1 <= f2)%nat ->
  bishop_path f2 board row_to column_to rs cs r c = res.
Proof.
  induction f1 as [|f1 IH]; intros f2 r c res E Hne Hle.
  - simpl in E. destruct f2; simpl.
    + exact E.
    + destruct (negb (r =? row_to) && negb (c =? column_to));
        [congruence | exact E].
  - destruct f2 as [|f2]; [lia|]. simpl in *.
    destruct (negb (r =? row_to) && negb (c =? column_to)); [|exact E].
    destruct (board_get board r c) as [sq|e]; simpl in *; [|exact E].
    destruct (negb (is_None sq)); [exact E|].
    apply IH; [exact E | exact Hne | lia].
Qed.

Lemma bishop_path_fuel (board : Board) (row_to column_to rs cs : Z) :
  unit_step rs ->
  forall (fuel : nat) (r c : Z),
  (1 <= fuel)%nat ->
  (- Z.of_nat (length board) <= r < Z.of_nat (length board) ->
   Z.of_nat fuel > (if rs =? 1 then Z.of_nat (length board) - r
                    else r + Z.of_nat (length board) + 1)) ->
  bishop_path fuel board row_to column_to rs cs r c <> Raise FuelExhausted.
Proof.
  intros Hrs. induction fuel as [|f IH]; intros r c H1 Hneed; [lia|].
  simpl.
  destruct (negb (r =? row_to) && negb (c =? column_to)); [|discriminate].
  destruct (board_get board r c) as [sq|e] eqn:E; simpl.
  - destruct (negb (is_None sq)); [discriminate|].
    apply board_get_Ok_row in E. specialize (Hneed E).
    apply IH.
    + destruct Hrs as [-> | ->]; simpl in Hneed; lia.
    + intros _. destruct Hrs as [-> | ->]; simpl in Hneed |- *; lia.
  - apply board_get_Raise in E. subst e. discriminate.
Qed.

Lemma Bishop_is_move_valid_fuel (row_from column_from row_to column_to : Z)
    (square_to : Square) (board : Board) :
  Bishop_is_move_valid row_from column_from row_to column_to square_to board
  <> Raise FuelExhausted.
Proof.
  unfold Bishop_is_move_valid.
  destruct (negb _); [discriminate|].
  apply bishop_path_fuel.
  - unfold unit_step. destruct (row_from <? row_to); auto.
  - unfold bishop_fuel. lia.
  - intros Hr. unfold bishop_fuel.
    destruct (row_from <? row_to); simpl; lia.
Qed.

Lemma Bishop_is_move_valid_path (row_from column_from row_to column_to : Z)
    (square_to : Square) (board : Board) :
  row_from <> row_to ->
  Z.abs (column_from - column_to) = Z.abs (row_from - row_to) ->
  Bishop_is_move_valid row_from column_from row_to column_to square_to board
  = path_clear board row_to column_to
      (if row_from <? row_to then 1 else -1)
      (if column_from <? column_to then 1 else -1)
      (Z.to_nat (Z.abs (row_from - row_to) - 1)).
Proof.
  intros Hne Habs.
  pose proof (Bishop_is_move_valid_fuel row_from column_from row_to column_to
                square_to board) as Hfuel.
  unfold Bishop_is_move_valid in *.
  rewrite Habs, Z.eqb_refl in *. simpl negb in *. cbv iota in *.
  set (rs := if row_from <? row_to then 1 else -1) in *.
  set (cs := if column_from <? column_to then 1 else -1) in *.
  set (n := Z.to_nat (Z.abs (row_from - row_to) - 1)).
  assert (Hrs : unit_step rs) by (unfold unit_step, rs; destruct (row_from <? row_to); auto).
  assert (Hcs : unit_step cs) by (unfold unit_step, cs; destruct (column_from <? column_to); auto).
  assert (Er : row_from + rs = row_to - rs * Z.of_nat n).
  { unfold rs, n. destruct (Z.ltb_spec row_from row_to); lia. }
  assert (Ec : column_from + cs = column_to - cs * Z.of_nat n).
  { unfold cs, n. destruct (Z.ltb_spec column_from column_to); lia. }
  rewrite <- (bishop_path_steps board row_to column_to rs cs Hrs Hcs n
                (Nat.max n (bishop_fuel board))) by lia.
  rewrite <- Er, <- Ec. symmetry.
  eapply bishop_path_mono; [reflexivity | exact Hfuel | lia].
Qed.

Lemma path_clear_true (board : Board) (row_to column_to rs cs : Z) (n : nat) :
  path_clear board row_to column_to rs cs n = Ok true <->
  forall k, 0 < k <= Z.of_nat n ->
    board_get board (row_to - rs * k) (column_to - cs * k) = Ok None.
Proof.
  induction n as [|m IH].
  - simpl. split; [intros _ k Hk; lia | reflexivity].
  - cbn [path_clear]. split.
    + intros H k Hk.
      destruct (board_get board _ _) as [sq|e] eqn:E; simpl in H; [|discriminate].
      destruct sq as [p|]; simpl in H; [discriminate|].
      destruct (Z.eq_dec k (Z.of_nat (S m))) as [->|Hk'].
      * exact E.
      * apply IH; [exact H | lia].
    + intros H. rewrite (H (Z.of_nat (S m))) by lia. simpl.
      apply IH. intros k Hk. apply H. lia.
Qed.

Lemma path_clear_Ok (board : Board) (row_to column_to rs cs : Z) (n : nat) :
  (forall k, 0 < k <= Z.of_nat n ->
     exists sq, board_get board (row_to - rs * k) (column_to - cs * k) = Ok sq) ->
  exists v, path_clear board row_to column_to rs cs n = Ok v.
Proof.
  induction n as [|m IH]; intros H.
  - exists true. reflexivity.
  - cbn [path_clear]. destruct (H (Z.of_nat (S m))) as [sq E]; [lia|].
    rewrite E. simpl. destruct (negb (is_None sq)); [eauto|].
    apply IH. intros k Hk. apply H. lia.
Qed.

Lemma bishop_path_Raise (board : Board) (row_to column_to rs cs : Z) (e : Exception) :
  forall (fuel : nat) (r c : Z),
  bishop_path fuel board row_to column_to rs cs r c = Raise e ->
  e = IndexError \/ e = FuelExhausted.
Proof.
  induction fuel as [|f IH]; intros r c; simpl;
    destruct (negb (r =? row_to) && negb (c =? column_to)); try discriminate.
  - intros [= <-]. auto.
  - destruct (board_get board r c) as [sq|e'] eqn:E; simpl.
    + destruct (negb (is_None sq)); [discriminate | apply IH].
    + intros [= <-]. left. eauto using board_get_Raise.
Qed.

Lemma Bishop_is_move_valid_Raise (row_from column_from row_to column_to : Z)
    (square_to : Square) (board : Board) (e : Exception) :
  Bishop_is_move_valid row_from column_from row_to column_to square_to board
    = Raise e ->
  e = IndexError.
Proof.
  intros H.
  pose proof (Bishop_is_move_valid_fuel row_from column_from row_to column_to
                square_to board) as Hfuel.
  rewrite H in Hfuel. unfold Bishop_is_move_valid in H.
  destruct (negb _); [discriminate|].
  apply bishop_path_Raise in H as [->| ->]; congruence.
Qed.

Lemma Rook_is_move_valid_Raise (row_from column_from row_to column_to : Z)
    (square_to : Square) (board : Board) (e : Exception) :
  Rook_is_move_valid row_from column_from row_to column_to square_to board
    = Raise e ->
  e = IndexError.
Proof.
  unfold Rook_is_move_valid.
  destruct (column_from =? column_to); [|destruct (row_from =? row_to)];
    try discriminate.
  all: match goal with
       | |- context [for_any ?l ?body] =>
           destruct (for_any l body) as [v|e'] eqn:E; simpl; [discriminate|];
           intros [= <-]; apply for_any_Raise in E; [exact E|]
       end.
  all: intros x e0; destruct (board_get board _ _) as [sq|e1] eqn:E1;
    simpl; [discriminate|]; intros [= <-]; eauto using board_get_Raise.
Qed.

Lemma is_move_valid_Raise (p : Piece) (row_from column_from row_to column_to : Z)
    (square_to : Square) (board : Board) (e : Exception) :
  is_move_valid p row_from column_from row_to column_to square_to board = Raise e ->
  e = IndexError.
Proof.
  unfold is_move_valid. destruct (kind p).
  - unfold Pawn_is_move_valid.
    destruct (is_None square_to && (column_from =? column_to)); [|discriminate].
    destruct (get_color p).
    all: match goal with
         | |- context [if ?c then _ else Ok false] => destruct c
         end; simpl.
    all: try match goal with
         | |- context [board_get ?b ?r ?c] =>
             destruct (board_get b r c) as [sq|e'] eqn:E; simpl;
             [destruct (is_None sq)|intros [= <-]; eauto using board_get_Raise]
         end.
    all: repeat match goal with
         | |- context [if ?c then _ else _] => destruct c
         end; discriminate.
  - apply Rook_is_move_valid_Raise.
  - discriminate.
  - apply Bishop_is_move_valid_Raise.
  - unfold Queen_is_move_valid.
    destruct (Rook_is_move_valid _ _ _ _ _ _) as [v|e'] eqn:E; simpl.
    + destruct (Bishop_is_move_valid _ _ _ _ _ _) as [v'|e'] eqn:E'; simpl;
        [discriminate|].
      intros [= <-]. eauto using Bishop_is_move_valid_Raise.
    + intros [= <-]. eauto using Rook_is_move_valid_Raise.
  - discriminate.
Qed.

Ltac zbool :=
  repeat match goal with
         | |- context [Z.eqb ?a ?b] => destruct (Z.eqb_spec a b); try lia
         end;
  simpl; try reflexivity.

Section MovementOnBoard.

Variable board : Board.
Hypothesis Hwf : wf_board board.

Variables row_from column_from row_to column_to : Z.
Hypothesis Hrow_from : -8 <= row_from < 8.
Hypothesis Hcolumn_from : -8 <= column_from < 8.
Hypothesis Hto : on_board row_to column_to.

Lemma Rook_is_move_valid_wf (square_to : Square) :
  exists v,
    Rook_is_move_valid row_from column_from row_to column_to square_to board = Ok v.
Proof using Hwf Hrow_from Hcolumn_from Hto.
  destruct Hto as [Hr Hc]. unfold Rook_is_move_valid.
  destruct (column_from =? column_to); [|destruct (row_from =? row_to)];
    [| |eauto].
  - rewrite (for_any_Ok _ _
      (fun row => negb (is_None (cell board (norm row) (norm column_from))))).
    + simpl. eauto.
    + intros x Hx. rewrite (board_get_wf board Hwf); [reflexivity| |lia].
      destruct (Z.ltb_spec row_from row_to);
        [apply in_py_range_up in Hx | apply in_py_range_down in Hx]; lia.
  - rewrite (for_any_Ok _ _
      (fun column => negb (is_None (cell board (norm row_from) (norm column))))).
    + simpl. eauto.
    + intros x Hx. rewrite (board_get_wf board Hwf); [reflexivity|lia|].
      destruct (Z.ltb_spec column_from column_to);
        [apply in_py_range_up in Hx | apply in_py_range_down in Hx]; lia.
Qed.

Lemma Bishop_is_move_valid_wf (square_to : Square) :
  (row_from, column_from) <> (row_to, column_to) ->
  exists v,
    Bishop_is_move_valid row_from column_from row_to column_to square_to board = Ok v.
Proof using Hwf Hrow_from Hcolumn_from Hto.
  intros Hne. destruct Hto as [Hr Hc].
  destruct (Z.eq_dec (Z.abs (column_from - column_to)) (Z.abs (row_from - row_to)))
    as [Habs|Habs].
  - assert (Hrne : row_from <> row_to).
    { intros ->. apply Hne. f_equal. lia. }
    rewrite Bishop_is_move_valid_path by assumption.
    apply path_clear_Ok. intros k Hk. eexists.
    apply (board_get_wf board Hwf).
    + destruct (Z.ltb_spec row_from row_to); lia.
    + destruct (Z.ltb_spec column_from column_to); lia.
  - unfold Bishop_is_move_valid.
    apply Z.eqb_neq in Habs. rewrite Habs. simpl. eauto.
Qed.

Lemma Pawn_is_move_valid_wf (color : Color) (square_to : Square) :
  Pawn_is_move_valid color row_from column_from row_to column_to square_to board
  = Ok (if is_None square_to
        then (column_from =? column_to)
             && ((row_to =? row_from + forward color)
                 || ((row_from =? start_row color)
                     && (row_to =? row_from + 2 * forward color)
                     && is_None (cell board (row_from + forward color)
                                   (norm column_from))))
        else (Z.abs (column_from - column_to) =? 1)
             && (row_to =? row_from + forward color)).
Proof using Hwf Hcolumn_from.
  clear Hrow_from Hto. unfold Pawn_is_move_valid.
  destruct square_to as [q|]; simpl.
  - destruct color; simpl; zbool.
  - destruct (column_from =? column_to); simpl; [|reflexivity].
    destruct color; simpl.
    + destruct (Z.eqb_spec row_from 6), (Z.eqb_spec (row_from - row_to) 2);
        simpl; [|zbool..].
      rewrite (board_get_wf board Hwf) by lia. simpl.
      replace (norm (row_from - 1)) with (row_from + -1)
        by (rewrite norm_on_board; lia).
      destruct (is_None _); simpl; zbool.
    + destruct (Z.eqb_spec row_from 1), (Z.eqb_spec (row_to - row_from) 2);
        simpl; [|zbool..].
      rewrite (board_get_wf board Hwf) by lia. simpl.
      replace (norm (row_from + 1)) with (row_from + 1)
        by (rewrite norm_on_board; lia).
      destruct (is_None _); simpl; zbool.
Qed.

Lemma is_move_valid_wf (p : Piece) (square_to : Square) :
  (row_from, column_from) <> (row_to, column_to) ->
  exists v,
    is_move_valid p row_from column_from row_to column_to square_to board = Ok v.
Proof using Hwf Hrow_from Hcolumn_from Hto.
  intros Hne. unfold is_move_valid. destruct (kind p).
  - rewrite Pawn_is_move_valid_wf. eauto.
  - apply Rook_is_move_valid_wf.
  - unfold Knight_is_move_valid. eauto.
  - apply Bishop_is_move_valid_wf. exact Hne.
  - unfold Queen_is_move_valid.
    destruct (Rook_is_move_valid_wf square_to) as [v ->].
    destruct (Bishop_is_move_valid_wf square_to Hne) as [v' ->].
    simpl. eauto.
  - unfold King_is_move_valid. eauto.
Qed.

End MovementOnBoard.

(* ================================================================== *)
(** ** The structure of [make_move] *)

Lemma on_boardb_true (row column : Z) :
  on_boardb row column = true <-> on_board row column.
Proof. unfold on_boardb, on_board. lia. Qed.

(** [make_move] once both squares have been parsed and read. *)
Lemma make_move_run (g : ChessVar) (string_from string_to : string)
    (row_from column_from row_to column_to : Z) (square_from square_to : Square) :
  square_row string_from = Ok row_from ->
  square_column string_from = Ok column_from ->
  square_row string_to = Ok row_to ->
  square_column string_to = Ok column_to ->
  board_get (_board g) row_from column_from = Ok square_from ->
  board_get (_board g) row_to column_to = Ok square_to ->
  make_move string_from string_to g =
    if negb (game_state_eqb (_game_state g) UNFINISHED) then (Ok false, g) else
    if String.eqb string_from string_to then (Ok false, g) else
    match square_from with
    | None => (Ok false, g)
    | Some p =>
        if negb (color_eqb (get_color p) (_turn g)) then (Ok false, g) else
        if negb (on_boardb row_to column_to) then (Ok false, g) else
        if own_piece (_turn g) square_to then (Ok false, g) else
        match is_move_valid p row_from column_from row_to column_to
                square_to (_board g) with
        | Raise e => (Raise e, g)
        | Ok false => (Ok false, g)
        | Ok true =>
            match square_to with
            | None => relocate row_from column_from row_to column_to square_from g
            | Some _ => capture row_from column_from row_to column_to (_turn g) g
            end
        end
    end.
Proof.
  intros Hrf Hcf Hrt Hct Hsf Hst.
  unfold make_move, bindM, get_game_state, get_board, get_turn, lift, ret.
  cbv beta iota.
  destruct (negb (game_state_eqb _ _)); [reflexivity|].
  destruct (String.eqb _ _); [reflexivity|].
  rewrite Hrf; cbv beta iota. rewrite Hcf; cbv beta iota.
  rewrite Hrt; cbv beta iota. rewrite Hct; cbv beta iota.
  rewrite Hsf; cbv beta iota. rewrite Hst; cbv beta iota.
  destruct square_from as [p|]; [|reflexivity].
  destruct (negb (color_eqb _ _)); [reflexivity|].
  fold (on_boardb row_to column_to).
  destruct (negb (on_boardb _ _)); [reflexivity|].
  fold (own_piece (_turn g) square_to).
  destruct (own_piece _ _); [reflexivity|].
  destruct (is_move_valid _ _ _ _ _ _ _) as [[|]|e]; try reflexivity.
  destruct square_to; reflexivity.
Qed.

Lemma square_row_Raise (s : string) (e : Exception) :
  square_row s = Raise e -> e <> FuelExhausted.
Proof.
  unfold square_row, str_getitem, int.
  destruct (String.get 1 s); simpl; [|congruence].
  destruct ((48 <=? ord a) && (ord a <=? 57)); simpl; congruence.
Qed.

Lemma square_column_Raise (s : string) (e : Exception) :
  square_column s = Raise e -> e <> FuelExhausted.
Proof.
  unfold square_column, str_getitem.
  destruct (String.get 0 s); simpl; congruence.
Qed.

Lemma make_move_cases (g : ChessVar) (string_from string_to : string) :
  make_move_outcome g string_from string_to (make_move string_from string_to g).
Proof.
  destruct (negb (game_state_eqb (_game_state g) UNFINISHED)) eqn:Est.
  { unfold make_move, bindM, get_game_state, ret. simpl. rewrite Est. constructor. }
  destruct (String.eqb string_from string_to) eqn:Eeq.
  { unfold make_move, bindM, get_game_state, ret. simpl. rewrite Est, Eeq. constructor. }
  assert (Hraise : forall e, e <> FuelExhausted ->
            make_move string_from string_to g = (Raise e, g) ->
            make_move_outcome g string_from string_to
              (make_move string_from string_to g)).
  { intros e He ->. constructor. exact He. }
  destruct (square_row string_from) as [rf|e] eqn:Erf.
  2:{ apply (Hraise e); [eauto using square_row_Raise|].
      unfold make_move, bindM, get_game_state, lift, ret. simpl.
      rewrite Est, Eeq, Erf. reflexivity. }
  destruct (square_column string_from) as [cf|e] eqn:Ecf.
  2:{ apply (Hraise e); [eauto using square_column_Raise|].
      unfold make_move, bindM, get_game_state, lift, ret. simpl.
      rewrite Est, Eeq, Erf, Ecf. reflexivity. }
  destruct (square_row string_to) as [rt|e] eqn:Ert.
  2:{ apply (Hraise e); [eauto using square_row_Raise|].
      unfold make_move, bindM, get_game_state, lift, ret. simpl.
      rewrite Est, Eeq, Erf, Ecf, Ert. reflexivity. }
  destruct (square_column string_to) as [ct|e] eqn:Ect.
  2:{ apply (Hraise e); [eauto using square_column_Raise|].
      unfold make_move, bindM, get_game_state, lift, ret. simpl.
      rewrite Est, Eeq, Erf, Ecf, Ert, Ect. reflexivity. }
  destruct (board_get (_board g) rf cf) as [sqf|e] eqn:Esf.
  2:{ apply (Hraise e).
      { apply board_get_Raise in Esf. congruence. }
      unfold make_move, bindM, get_game_state, get_board, lift, ret. simpl.
      rewrite Est, Eeq, Erf, Ecf, Ert, Ect, Esf. reflexivity. }
  destruct (board_get (_board g) rt ct) as [sqt|e] eqn:Esq.
  2:{ apply (Hraise e).
      { apply board_get_Raise in Esq. congruence. }
      unfold make_move, bindM, get_game_state, get_board, lift, ret. simpl.
      rewrite Est, Eeq, Erf, Ecf, Ert, Ect, Esf, Esq. reflexivity. }
  rewrite (make_move_run g string_from string_to rf cf rt ct sqf sqt) by assumption.
  rewrite Est, Eeq.
  destruct sqf as [p|]; [|constructor].
  destruct (negb (color_eqb (get_color p) (_turn g))) eqn:Ecol; [constructor|].
  destruct (negb (on_boardb rt ct)) eqn:Eon; [constructor|].
  destruct (own_piece (_turn g) sqt) eqn:Eown; [constructor|].
  destruct (is_move_valid p rf cf rt ct sqt (_board g)) as [[|]|e] eqn:Ev.
  - apply negb_false_iff in Est, Ecol, Eon.
    apply color_eqb_eq in Ecol. apply on_boardb_true in Eon.
    destruct (_game_state g) eqn:Egs; try discriminate.
    apply (outcome_execute g string_from string_to rf cf rt ct p sqt);
      auto.
  - constructor.
  - constructor. apply is_move_valid_Raise in Ev. congruence.
Qed.

Lemma is_own_king_exploded_wf (g : ChessVar) (row_to column_to : Z) :
  wf_board (_board g) ->
  is_own_king_exploded row_to column_to g
  = (Ok (king_in_blast (own_king (_turn g)) (_board g) row_to column_to), g).
Proof.
  intros Hwf. unfold is_own_king_exploded, bindM, get_board, get_turn, lift.
  cbv beta iota. f_equal.
  apply (scan_wf (_board g) (own_king (_turn g)) row_to column_to Hwf).
Qed.

Lemma is_opponent_king_exploded_wf (g : ChessVar) (row_to column_to : Z) :
  wf_board (_board g) ->
  is_opponent_king_exploded row_to column_to g
  = (Ok (king_in_blast (opp_king (_turn g)) (_board g) row_to column_to), g).
Proof.
  intros Hwf. unfold is_opponent_king_exploded, bindM, get_board, get_turn, lift.
  cbv beta iota. f_equal.
  apply (scan_wf (_board g) (opp_king (_turn g)) row_to column_to Hwf).
Qed.

Lemma king_in_blast_true (pred : Piece -> bool) (board : Board)
    (row_to column_to : Z) :
  king_in_blast pred board row_to column_to = true <->
  exists r c p, in_blast row_to column_to r c /\
    cell board r c = Some p /\ pred p = true.
Proof.
  unfold king_in_blast. rewrite blast_any_true. split.
  - intros (r & c & Hin & H). destruct (cell board r c) as [p|] eqn:E;
      [|discriminate]. exists r, c, p. auto.
  - intros (r & c & p & Hin & E & H). exists r, c. rewrite E. auto.
Qed.

Lemma own_king_spec (turn : Color) (p : Piece) :
  own_king turn p = true <-> p = mkPiece King turn.
Proof.
  unfold own_king. rewrite symbol_head_is_K.
  destruct p as [[] []], turn; simpl; split; congruence.
Qed.

Lemma opp_king_spec (turn : Color) (p : Piece) :
  opp_king turn p = true <-> p = mkPiece King (other turn).
Proof.
  unfold opp_king. rewrite symbol_head_is_K.
  destruct p as [[] []], turn; simpl; split; congruence.
Qed.

Lemma relocate_wf (g : ChessVar) (row_from column_from row_to column_to : Z)
    (p : Piece) :
  wf_board (_board g) ->
  board_get (_board g) row_from column_from = Ok (Some p) ->
  on_board row_to column_to ->
  exists g',
    relocate row_from column_from row_to column_to (Some p) g = (Ok true, g') /\
    wf_board (_board g') /\
    _turn g' = other (_turn g) /\
    _game_state g' = _game_state g /\
    forall r c, on_board r c ->
      cell (_board g') r c =
        if (r =? row_to) && (c =? column_to) then Some p
        else if (r =? norm row_from) && (c =? norm column_from) then None
        else cell (_board g) r c.
Proof.
  intros Hwf Hfrom [Hr Hc].
  destruct (board_get_wf_range _ Hwf _ _ _ Hfrom) as [Hrf Hcf].
  destruct (board_set_wf _ Hwf row_from column_from None Hrf Hcf)
    as (b1 & E1 & W1 & C1).
  destruct (board_set_wf _ W1 row_to column_to (Some p)) as (b2 & E2 & W2 & C2);
    [lia|lia|].
  unfold relocate, bindM, board_setitem, change_turn, get_turn, set_turn, ret.
  rewrite E1. cbv beta iota. simpl _board. rewrite E2. cbv beta iota.
  exists (mkChessVar b2 (_game_state g) (other (_turn g))). split.
  - simpl. destruct (_turn g); reflexivity.
  - simpl. split; [exact W2|]. split; [reflexivity|]. split; [reflexivity|].
    intros r c Hrc.
    rewrite (C2 r c Hrc), (C1 r c Hrc),
      !(norm_on_board row_to), !(norm_on_board column_to) by lia.
    reflexivity.
Qed.

Lemma capture_wf (g : ChessVar) (row_from column_from row_to column_to : Z)
    (p : Piece) :
  wf_board (_board g) ->
  board_get (_board g) row_from column_from = Ok (Some p) ->
  (king_in_blast (own_king (_turn g)) (_board g) row_to column_to = true /\
   capture row_from column_from row_to column_to (_turn g) g = (Ok false, g)) \/
  (king_in_blast (own_king (_turn g)) (_board g) row_to column_to = false /\
   exists b1 g',
     board_set (_board g) row_from column_from None = Ok b1 /\
     wf_board b1 /\
     (forall r c, on_board r c ->
        cell b1 r c =
          if (r =? norm row_from) && (c =? norm column_from) then None
          else cell (_board g) r c) /\
     capture row_from column_from row_to column_to (_turn g) g = (Ok true, g') /\
     wf_board (_board g') /\
     _game_state g' =
       (if king_in_blast (opp_king (_turn g)) b1 row_to column_to
        then won (_turn g) else _game_state g) /\
     _turn g' =
       (if king_in_blast (opp_king (_turn g)) b1 row_to column_to
        then _turn g else other (_turn g)) /\
     forall r c, on_board r c ->
       (in_blast row_to column_to r c ->
          cell (_board g') r c = blast_sq row_to column_to r c (cell b1 r c)) /\
       (~ in_blast row_to column_to r c ->
          cell (_board g') r c = cell b1 r c)).
Proof.
  intros Hwf Hfrom.
  destruct (board_get_wf_range _ Hwf _ _ _ Hfrom) as [Hrf Hcf].
  unfold capture, bindM. rewrite is_own_king_exploded_wf by exact Hwf.
  destruct (king_in_blast (own_king _) _ _ _) eqn:Eown; [left; auto|].
  right. split; [reflexivity|].
  destruct (board_set_wf _ Hwf row_from column_from None Hrf Hcf)
    as (b1 & E1 & W1 & C1).
  exists b1. unfold board_setitem at 1. rewrite E1.
  rewrite is_opponent_king_exploded_wf by exact W1.
  cbn [_board _turn].
  set (opp := king_in_blast (opp_king (_turn g)) b1 row_to column_to).
  set (g2 := if opp
             then mkChessVar b1 (won (_turn g)) (_turn g)
             else mkChessVar b1 (_game_state g) (other (_turn g))).
  assert (W2 : wf_board (_board g2)) by (unfold g2; destruct opp; exact W1).
  destruct (execute_explosion_wf row_to column_to g2 W2)
    as (g' & E & W & T & S & C).
  exists g'.
  assert (Estep :
    (if opp
     then match _turn g with
          | White => set_game_state WHITE_WON
          | Black => set_game_state BLACK_WON
          end
     else change_turn) (mkChessVar b1 (_game_state g) (_turn g)) = (Ok tt, g2)).
  { unfold g2, change_turn, bindM, get_turn, set_turn, set_game_state.
    destruct opp; simpl; destruct (_turn g); reflexivity. }
  rewrite Estep, E. unfold ret.
  split; [reflexivity|]. split; [exact W1|]. split; [exact C1|].
  split; [reflexivity|]. split; [exact W|].
  split; [rewrite S; unfold g2; destruct opp; reflexivity|].
  split; [rewrite T; unfold g2; destruct opp; reflexivity|].
  intros r c Hrc.
  replace b1 with (_board g2) by (unfold g2; destruct opp; reflexivity).
  apply C. exact Hrc.
Qed.

(** An accepted move passed every gate and was executed. *)
Lemma make_move_accepted (g g' : ChessVar) (string_from string_to : string)
    (row_from column_from row_to column_to : Z) (square_to : Square) :
  square_row string_from = Ok row_from ->
  square_column string_from = Ok column_from ->
  square_row string_to = Ok row_to ->
  square_column string_to = Ok column_to ->
  board_get (_board g) row_to column_to = Ok square_to ->
  make_move string_from string_to g = (Ok true, g') ->
  exists p,
    _game_state g = UNFINISHED /\
    board_get (_board g) row_from column_from = Ok (Some p) /\
    get_color p = _turn g /\
    on_board row_to column_to /\
    own_piece (_turn g) square_to = false /\
    is_move_valid p row_from column_from row_to column_to square_to (_board g)
      = Ok true /\
    match square_to with
    | None => relocate row_from column_from row_to column_to (Some p) g
    | Some _ => capture row_from column_from row_to column_to (_turn g) g
    end = (Ok true, g').
Proof.
  intros Hrf Hcf Hrt Hct Hto Hmove.
  pose proof (make_move_cases g string_from string_to) as Hcases.
  rewrite Hmove in Hcases.
  inversion Hcases as [ | | rf cf rt ct p sq Hst Hrf' Hcf' Hrt' Hct' Hp Hsq Hcol Hon Hown Hvalid Hexec].
  assert (rf = row_from) by congruence. assert (cf = column_from) by congruence.
  assert (rt = row_to) by congruence. assert (ct = column_to) by congruence.
  subst rf cf rt ct.
  assert (sq = square_to) by congruence. subst sq.
  exists p. auto 10.
Qed.

(* ================================================================== *)
(** ** Properties of the rule engine *)

(** C6: once the game is won the object is frozen: every later call of
    [make_move], whatever the two strings, returns [False] and changes
    neither the board, the turn nor the game state; so does any sequence of
    calls. *)
Theorem won_game_is_terminal (g : ChessVar) (string_from string_to : string)
    (moves : list (string * string)) :
  _game_state g <> UNFINISHED ->
  make_move string_from string_to g = (Ok false, g) /\ play moves g = g.
Proof.
  intros Hst.
  assert (H : forall sf st, make_move sf st g = (Ok false, g)).
  { intros sf st. unfold make_move, bindM, get_game_state, ret. cbv beta iota.
    destruct (_game_state g); [congruence | reflexivity | reflexivity]. }
  split; [apply H|].
  unfold play. induction moves as [|[sf st] moves IH]; simpl; [reflexivity|].
  rewrite H. simpl. exact IH.
Qed.

Lemma won_game_is_terminal_witness :
  let g := mkChessVar (_board init) WHITE_WON White in
  make_move "e2" "e4" g = (Ok false, g) /\
  play [("e7", "e5"); ("a1", "a0")]%string g = g.
Proof.
  intros g. apply (won_game_is_terminal g "e2" "e4" [("e7", "e5"); ("a1", "a0")]%string).
  discriminate.
Defined.

(** C1: a destination below the first rank makes [make_move] raise
    [IndexError] where a [False] is expected: the board is read at the
    destination before the bounds of the destination are checked. *)
Theorem destination_off_board_raises :
  make_move "e2" "e0" init = (Raise IndexError, init).
Proof. vm_compute. reflexivity. Qed.

(** A destination off the board is never accepted and never changes the
    object, whether the call returns or raises. *)
Lemma destination_off_board_unchanged (g : ChessVar)
    (string_from string_to : string) (row_to column_to : Z) :
  square_row string_to = Ok row_to ->
  square_column string_to = Ok column_to ->
  ~ on_board row_to column_to ->
  snd (make_move string_from string_to g) = g /\
  fst (make_move string_from string_to g) <> Ok true.
Proof.
  intros Hrt Hct Hoff.
  destruct (make_move_cases g string_from string_to)
    as [ | e He | rf cf rt ct p sq Hst Hrf' Hcf' Hrt' Hct' Hp Hsq Hcol Hon].
  - split; [reflexivity | discriminate].
  - split; [reflexivity | discriminate].
  - exfalso. apply Hoff. congruence.
Qed.

(** The same bounds gate does return [False] when the indices wrap around:
    rank 9 is row -1, the last row of the board. *)
Lemma destination_above_board_rejected :
  make_move "e2" "e9" init = (Ok false, init).
Proof. vm_compute. reflexivity. Qed.

(** The origin goes through no bounds gate at all: "b9" reads row -1, the
    white knight of b1, which then captures on a7. *)
Remark origin_wraps_around :
  fst (make_move "b9" "a7" init) = Ok true /\
  board_get (_board (snd (make_move "b9" "a7" init))) 7 1 = Ok None.
Proof. vm_compute. split; reflexivity. Qed.

(** C7: on a board of 8x8 squares, for an origin column that indexes the
    board, the pawn rule returns a boolean.  With an empty destination it is
    true exactly when the move stays in its column and is one step forward,
    or two steps forward from the starting row with the square in between
    empty; with an occupied destination it is true exactly when the move is
    one diagonal step forward. *)
Theorem pawn_move_legality (board : Board) (color : Color)
    (row_from column_from row_to column_to : Z) (square_to : Square) :
  wf_board board ->
  -8 <= column_from < 8 ->
  exists v,
    Pawn_is_move_valid color row_from column_from row_to column_to
      square_to board = Ok v /\
    (square_to = None ->
       (v = true <->
        column_from = column_to /\
        (row_to = row_from + forward color \/
         (row_from = start_row color /\
          row_to = row_from + 2 * forward color /\
          board_get board (row_from + forward color) column_from = Ok None)))) /\
    (square_to <> None ->
       (v = true <->
        Z.abs (column_from - column_to) = 1 /\
        row_to = row_from + forward color)).
Proof.
  intros Hwf Hcf. eexists. split.
  { apply (Pawn_is_move_valid_wf board Hwf row_from column_from row_to column_to Hcf). }
  split.
  - intros ->. simpl.
    rewrite andb_true_iff, orb_true_iff, !andb_true_iff, !Z.eqb_eq.
    assert (Hsq : row_from = start_row color ->
              (is_None (cell board (row_from + forward color) (norm column_from)) = true
               <-> board_get board (row_from + forward color) column_from = Ok None)).
    { intros Hstart.
      rewrite (board_get_wf board Hwf) by (destruct color; simpl in *; lia).
      rewrite (norm_on_board (row_from + forward color))
        by (destruct color; simpl in *; lia).
      destruct (cell board _ _); simpl; split; congruence. }
    split.
    + intros [Hc [H|[[Hs H2] Hn]]]; (split; [exact Hc|]); [left; exact H|].
      right. split; [exact Hs|]. split; [exact H2|]. apply Hsq; assumption.
    + intros [Hc [H|(Hs & H2 & Hn)]]; (split; [exact Hc|]); [left; exact H|].
      right. split; [split; assumption|]. apply Hsq; assumption.
  - intros Hocc. destruct square_to as [q|]; [|congruence]. simpl.
    rewrite andb_true_iff, !Z.eqb_eq. reflexivity.
Qed.

Lemma pawn_move_legality_witness :
  exists v,
    Pawn_is_move_valid White 6 4 4 4 None (_board init) = Ok v /\
    (@None Piece = None ->
       (v = true <->
        4 = 4 /\
        (4 = 6 + forward White \/
         (6 = start_row White /\
          4 = 6 + 2 * forward White /\
          board_get (_board init) (6 + forward White) 4 = Ok None)))) /\
    (@None Piece <> None ->
       (v = true <-> Z.abs (4 - 4) = 1 /\ 4 = 6 + forward White)).
Proof.
  apply (pawn_move_legality (_board init) White 6 4 4 4 None).
  - split; [reflexivity|]. repeat constructor.
  - lia.
Defined.

(** C8: the king rule is true exactly when the Chebyshev distance of the
    move is at most 1 and the destination is empty; and a call of
    [make_move] that moves a king onto an occupied square returns [False]
    and leaves the object as it was, adjacent or not. *)
Theorem king_move_legality :
  (forall (row_from column_from row_to column_to : Z)
          (square_to : Square) (board : Board),
     exists v,
       King_is_move_valid row_from column_from row_to column_to square_to board
         = Ok v /\
       (v = true <->
        Z.max (Z.abs (row_from - row_to)) (Z.abs (column_from - column_to)) <= 1 /\
        square_to = None)) /\
  (forall (g : ChessVar) (string_from string_to : string)
          (row_from column_from row_to column_to : Z) (p q : Piece),
     square_row string_from = Ok row_from ->
     square_column string_from = Ok column_from ->
     square_row string_to = Ok row_to ->
     square_column string_to = Ok column_to ->
     board_get (_board g) row_from column_from = Ok (Some p) ->
     kind p = King ->
     board_get (_board g) row_to column_to = Ok (Some q) ->
     make_move string_from string_to g = (Ok false, g)).
Proof.
  split.
  - intros. eexists. split; [reflexivity|].
    destruct square_to as [q|]; simpl.
    + split; [discriminate | intros [_ H]; discriminate].
    + rewrite !andb_true_iff, !Z.leb_le. split;
        [intros H; split; [lia | reflexivity] | intros [H _]; lia].
  - intros g sf st rf cf rt ct p q Hrf Hcf Hrt Hct Hp Hk Hq.
    rewrite (make_move_run g sf st rf cf rt ct (Some p) (Some q)) by assumption.
    unfold is_move_valid, King_is_move_valid. rewrite Hk. simpl.
    repeat match goal with
           | |- context [if ?c then _ else _] => destruct c
           end; reflexivity.
Qed.

Lemma king_move_legality_witness :
  make_move "e1" "e7" init = (Ok false, init) /\
  make_move "e8" "d1" (snd (make_move "e2" "e4" init))
    = (Ok false, snd (make_move "e2" "e4" init)).
Proof.
  split.
  - apply (proj2 king_move_legality init "e1"%string "e7"%string 7 4 1 4
             (mkPiece King White) (mkPiece Pawn Black)); reflexivity.
  - apply (proj2 king_move_legality (snd (make_move "e2" "e4" init))
             "e8"%string "d1"%string 0 4 7 3 (mkPiece King Black) (mkPiece Queen White)); reflexivity.
Defined.

(** C9: for an origin distinct from the destination, the bishop rule
    returns [True] exactly when the move is diagonal and every square
    strictly between the two, the second-to-last included, reads as empty;
    on a board of 8x8 squares with both squares on the board it returns a
    boolean. *)
Theorem bishop_move_legality (board : Board)
    (row_from column_from row_to column_to : Z) (square_to : Square) :
  (row_from, column_from) <> (row_to, column_to) ->
  (Bishop_is_move_valid row_from column_from row_to column_to square_to board
     = Ok true <->
   Z.abs (row_from - row_to) = Z.abs (column_from - column_to) /\
   forall k, 0 < k < Z.abs (row_from - row_to) ->
     board_get board
       (row_from + k * (if row_from <? row_to then 1 else -1))
       (column_from + k * (if column_from <? column_to then 1 else -1))
     = Ok None) /\
  (wf_board board -> on_board row_from column_from -> on_board row_to column_to ->
   exists v,
     Bishop_is_move_valid row_from column_from row_to column_to square_to board
       = Ok v).
Proof.
  intros Hne. split.
  - destruct (Z.eq_dec (Z.abs (column_from - column_to)) (Z.abs (row_from - row_to)))
      as [Habs|Habs].
    + assert (Hrne : row_from <> row_to).
      { intros ->. apply Hne. f_equal. lia. }
      rewrite Bishop_is_move_valid_path by assumption.
      rewrite path_clear_true. split.
      * intros H. split; [lia|]. intros k Hk.
        specialize (H (Z.abs (row_from - row_to) - k)).
        destruct (Z.ltb_spec row_from row_to), (Z.ltb_spec column_from column_to);
          (rewrite <- H by lia; f_equal; lia).
      * intros [_ H] k Hk.
        specialize (H (Z.abs (row_from - row_to) - k)).
        destruct (Z.ltb_spec row_from row_to), (Z.ltb_spec column_from column_to);
          (rewrite <- H by lia; f_equal; lia).
    + unfold Bishop_is_move_valid.
      apply Z.eqb_neq in Habs as Hb. rewrite Hb. simpl.
      split; [discriminate | intros [H _]; lia].
  - intros Hwf [Hr Hc] Hto.
    apply Bishop_is_move_valid_wf; auto; lia.
Qed.

Lemma bishop_move_legality_witness :
  Bishop_is_move_valid 7 2 4 5 None (_board init) = Ok false /\
  exists v, Bishop_is_move_valid 7 2 4 5 None (_board init) = Ok v.
Proof.
  split; [reflexivity|].
  apply (bishop_move_legality (_board init) 7 2 4 5 None).
  - intros [=].
  - split; [reflexivity|]. repeat constructor.
  - unfold on_board. lia.
  - unfold on_board. lia.
Defined.

(** C5: after an accepted move to an empty square, the origin is empty, the
    destination holds the piece that stood on the origin, every other
    square of the board is as before, the turn has passed to the other
    side and the game state is as before. *)
Theorem relocation_frame (g g' : ChessVar) (string_from string_to : string)
    (row_from column_from row_to column_to : Z) :
  wf_board (_board g) ->
  square_row string_from = Ok row_from ->
  square_column string_from = Ok column_from ->
  square_row string_to = Ok row_to ->
  square_column string_to = Ok column_to ->
  board_get (_board g) row_to column_to = Ok None ->
  make_move string_from string_to g = (Ok true, g') ->
  board_get (_board g') row_from column_from = Ok None /\
  (exists p, board_get (_board g) row_from column_from = Ok (Some p) /\
             board_get (_board g') row_to column_to = Ok (Some p)) /\
  (forall r c, on_board r c ->
     (r, c) <> (norm row_from, norm column_from) ->
     (r, c) <> (row_to, column_to) ->
     board_get (_board g') r c = board_get (_board g) r c) /\
  _turn g' = other (_turn g) /\
  _game_state g' = _game_state g.
Proof.
  intros Hwf Hrf Hcf Hrt Hct Hto Hmove.
  destruct (make_move_accepted g g' _ _ _ _ _ _ _ Hrf Hcf Hrt Hct Hto Hmove)
    as (p & Hst & Hp & Hcol & Hon & _ & _ & Hexec).
  destruct (relocate_wf g row_from column_from row_to column_to p Hwf Hp Hon)
    as (g1 & E1 & W1 & T1 & S1 & C1).
  assert (g1 = g') by congruence. subst g1.
  destruct (board_get_wf_range _ Hwf _ _ _ Hp) as [Hvr Hvc].
  pose proof (norm_range _ Hvr) as Hnr. pose proof (norm_range _ Hvc) as Hnc.
  assert (Hcell_from : cell (_board g) (norm row_from) (norm column_from) = Some p).
  { rewrite (board_get_wf _ Hwf) in Hp by assumption. congruence. }
  assert (Hcell_to : cell (_board g) row_to column_to = None).
  { rewrite (board_get_on_board _ Hwf) in Hto by assumption. congruence. }
  assert (Hdiff : (norm row_from =? row_to) && (norm column_from =? column_to) = false).
  { destruct (Z.eqb_spec (norm row_from) row_to) as [Er|]; [|reflexivity].
    destruct (Z.eqb_spec (norm column_from) column_to) as [Ec|]; [|reflexivity].
    rewrite Er, Ec in Hcell_from. congruence. }
  split; [|split; [|split; [|split]]].
  - rewrite (board_get_wf _ W1) by assumption.
    rewrite C1 by (unfold on_board; lia).
    rewrite Hdiff, !Z.eqb_refl. reflexivity.
  - exists p. split; [exact Hp|].
    rewrite (board_get_on_board _ W1) by assumption.
    rewrite C1 by assumption. rewrite !Z.eqb_refl. reflexivity.
  - intros r c Hrc Hnf Hnt.
    rewrite (board_get_on_board _ W1), (board_get_on_board _ Hwf) by assumption.
    rewrite C1 by assumption.
    destruct (Z.eqb_spec r row_to), (Z.eqb_spec c column_to),
      (Z.eqb_spec r (norm row_from)), (Z.eqb_spec c (norm column_from));
      simpl; try reflexivity; subst; exfalso; auto.
  - exact T1.
  - exact S1.
Qed.

Lemma relocation_frame_witness :
  exists g',
    make_move "e2" "e4" init = (Ok true, g') /\
    board_get (_board g') 6 4 = Ok None /\
    board_get (_board g') 4 4 = Ok (Some (mkPiece Pawn White)) /\
    _turn g' = Black /\ _game_state g' = UNFINISHED.
Proof.
  exists (snd (make_move "e2" "e4" init)).
  assert (Hwf : wf_board (_board init)) by (split; [reflexivity | repeat constructor]).
  destruct (relocation_frame init (snd (make_move "e2" "e4" init))
              "e2" "e4" 6 4 4 4 Hwf eq_refl eq_refl eq_refl eq_refl eq_refl eq_refl)
    as (H1 & _ & _ & H4 & H5).
  split; [reflexivity|]. split; [exact H1|]. split; [reflexivity|].
  split; [exact H4 | exact H5].
Defined.

Lemma blast_sq_destination (row_to column_to : Z) (sq : Square) :
  blast_sq row_to column_to row_to column_to sq = None.
Proof.
  unfold blast_sq. destruct sq as [p|]; [|reflexivity].
  rewrite !Z.eqb_refl. simpl. rewrite andb_false_r. reflexivity.
Qed.

Lemma blast_sq_pawn (row_to column_to r c : Z) (p : Piece) :
  kind p = Pawn -> (r, c) <> (row_to, column_to) ->
  blast_sq row_to column_to r c (Some p) = Some p.
Proof.
  intros Hk Hne. unfold blast_sq. rewrite symbol_head_is_P, Hk.
  destruct (Z.eqb_spec r row_to), (Z.eqb_spec c column_to); simpl;
    try reflexivity.
  subst. congruence.
Qed.

Lemma blast_sq_cases (row_to column_to r c : Z) (sq : Square) :
  blast_sq row_to column_to r c sq = None \/
  exists p, sq = Some p /\ kind p = Pawn /\ (r, c) <> (row_to, column_to) /\
            blast_sq row_to column_to r c sq = Some p.
Proof.
  unfold blast_sq. destruct sq as [p|]; [|left; reflexivity].
  rewrite symbol_head_is_P.
  destruct (kind p) eqn:Hk; simpl; try (left; reflexivity).
  destruct (Z.eqb_spec r row_to), (Z.eqb_spec c column_to); simpl;
    try (left; reflexivity); right; exists p; repeat split; congruence.
Qed.

(** An accepted capture: the capturing piece is not a king, no king of the
    mover stands in the explosion, and the object after the call is the
    explosion of the board [b1] from which the capturing piece was lifted. *)
Lemma capture_accepted (g g' : ChessVar) (string_from string_to : string)
    (row_from column_from row_to column_to : Z) (q : Piece) :
  wf_board (_board g) ->
  square_row string_from = Ok row_from ->
  square_column string_from = Ok column_from ->
  square_row string_to = Ok row_to ->
  square_column string_to = Ok column_to ->
  board_get (_board g) row_to column_to = Ok (Some q) ->
  make_move string_from string_to g = (Ok true, g') ->
  exists p b1,
    _game_state g = UNFINISHED /\
    board_get (_board g) row_from column_from = Ok (Some p) /\
    get_color p = _turn g /\ kind p <> King /\
    on_board row_to column_to /\
    king_in_blast (own_king (_turn g)) (_board g) row_to column_to = false /\
    board_set (_board g) row_from column_from None = Ok b1 /\
    wf_board b1 /\
    (forall r c, on_board r c ->
       cell b1 r c =
         if (r =? norm row_from) && (c =? norm column_from) then None
         else cell (_board g) r c) /\
    wf_board (_board g') /\
    _game_state g' =
      (if king_in_blast (opp_king (_turn g)) b1 row_to column_to
       then won (_turn g) else UNFINISHED) /\
    _turn g' =
      (if king_in_blast (opp_king (_turn g)) b1 row_to column_to
       then _turn g else other (_turn g)) /\
    forall r c, on_board r c ->
      (in_blast row_to column_to r c ->
         cell (_board g') r c = blast_sq row_to column_to r c (cell b1 r c)) /\
      (~ in_blast row_to column_to r c ->
         cell (_board g') r c = cell b1 r c).
Proof.
  intros Hwf Hrf Hcf Hrt Hct Hto Hmove.
  destruct (make_move_accepted g g' _ _ _ _ _ _ _ Hrf Hcf Hrt Hct Hto Hmove)
    as (p & Hst & Hp & Hcol & Hon & _ & Hvalid & Hexec).
  destruct (capture_wf g row_from column_from row_to column_to p Hwf Hp)
    as [[_ E]|(Hown & b1 & g1 & E1 & W1 & C1 & E & W & S & T & C)];
    [congruence|].
  assert (g1 = g') by congruence. subst g1.
  exists p, b1. rewrite Hst in S.
  assert (Hk : kind p <> King).
  { intros Hk. unfold is_move_valid, King_is_move_valid in Hvalid.
    rewrite Hk in Hvalid. discriminate. }
  auto 15.
Qed.

(** The board read by the scan for the opponent's king and by the
    explosion: the board of the call with the origin square emptied. *)
Lemma pre_explosion_board (board b1 : Board) (row_from column_from : Z) :
  wf_board board ->
  board_set board row_from column_from None = Ok b1 ->
  -8 <= row_from < 8 -> -8 <= column_from < 8 ->
  forall r c, on_board r c ->
    board_get b1 r c =
      if (r =? norm row_from) && (c =? norm column_from) then Ok None
      else board_get board r c.
Proof.
  intros Hwf Hset Hr Hc r c Hrc.
  destruct (board_set_wf _ Hwf row_from column_from None Hr Hc)
    as (b & E & W & C).
  assert (b = b1) by congruence. subst b.
  rewrite (board_get_on_board _ W), (board_get_on_board _ Hwf) by assumption.
  rewrite (C r c Hrc). destruct (_ && _); reflexivity.
Qed.

(** C2: after an accepted capture, the destination square is empty, and
    every square of the explosion (the 3x3 neighbourhood of the destination
    cut to the board) is empty unless it is another square than the
    destination and held a pawn when the explosion ran, that is on the
    board [b1] from which the capturing piece has been lifted; such a pawn
    is still there. *)
Theorem blast_radius_cleared (g g' : ChessVar) (string_from string_to : string)
    (row_from column_from row_to column_to : Z) (q : Piece) (b1 : Board) :
  wf_board (_board g) ->
  square_row string_from = Ok row_from ->
  square_column string_from = Ok column_from ->
  square_row string_to = Ok row_to ->
  square_column string_to = Ok column_to ->
  board_get (_board g) row_to column_to = Ok (Some q) ->
  make_move string_from string_to g = (Ok true, g') ->
  board_set (_board g) row_from column_from None = Ok b1 ->
  board_get (_board g') row_to column_to = Ok None /\
  forall r c, in_blast row_to column_to r c ->
    (forall p, board_get b1 r c = Ok (Some p) -> kind p = Pawn ->
               (r, c) <> (row_to, column_to) ->
               board_get (_board g') r c = Ok (Some p)) /\
    (board_get (_board g') r c = Ok None \/
     exists p, kind p = Pawn /\ (r, c) <> (row_to, column_to) /\
               board_get b1 r c = Ok (Some p) /\
               board_get (_board g') r c = Ok (Some p)).
Proof.
  intros Hwf Hrf Hcf Hrt Hct Hto Hmove Hb1.
  destruct (capture_accepted g g' _ _ _ _ _ _ _ Hwf Hrf Hcf Hrt Hct Hto Hmove)
    as (p0 & b & _ & _ & _ & _ & Hon & _ & Eb & W1 & _ & W & _ & _ & C).
  assert (b = b1) by congruence. subst b.
  split.
  - rewrite (board_get_on_board _ W) by assumption.
    destruct (C row_to column_to Hon) as [Hin _]. rewrite Hin.
    + rewrite blast_sq_destination. reflexivity.
    + split; [exact Hon|]. rewrite !Z.sub_diag. simpl. lia.
  - intros r c Hin. pose proof Hin as (Hrc & _).
    destruct (C r c Hrc) as [Hcell _]. specialize (Hcell Hin).
    rewrite (board_get_on_board _ W), (board_get_on_board _ W1) by assumption.
    rewrite Hcell. split.
    + intros p [= Hp] Hk Hne. rewrite Hp, blast_sq_pawn by assumption.
      reflexivity.
    + destruct (blast_sq_cases row_to column_to r c (cell b1 r c))
        as [E|(p & Ep & Hk & Hne & E)]; rewrite E.
      * left. reflexivity.
      * right. exists p. rewrite Ep. auto.
Qed.

Lemma wf_board_init : wf_board (_board init).
Proof. split; [reflexivity | repeat constructor]. Qed.

Lemma wf_board_queen_raid : wf_board (_board queen_raid).
Proof. split; [reflexivity | vm_compute; repeat constructor]. Qed.

Lemma blast_radius_cleared_witness :
  let g' := snd (make_move "h5" "f7" queen_raid) in
  board_get (_board g') 1 5 = Ok None /\
  board_get (_board g') 1 6 = Ok (Some (mkPiece Pawn Black)) /\
  board_get (_board g') 0 5 = Ok None.
Proof.
  intros g'.
  destruct (blast_radius_cleared queen_raid g' "h5" "f7" 3 7 1 5
              (mkPiece Pawn Black)
              (match board_set (_board queen_raid) 3 7 None with
               | Ok b => b
               | Raise _ => []
               end)
              wf_board_queen_raid eq_refl eq_refl eq_refl eq_refl
              eq_refl eq_refl eq_refl)
    as [Hdest Hblast].
  split; [exact Hdest|]. split.
  - apply (Hblast 1 6).
    + unfold in_blast, on_board. simpl. lia.
    + reflexivity.
    + reflexivity.
    + intros [=].
  - destruct (Hblast 0 5) as [_ [H|(p & Hk & _ & Hp & _)]].
    + unfold in_blast, on_board. simpl. lia.
    + exact H.
    + vm_compute in Hp. injection Hp as <-. discriminate Hk.
Defined.

(** C3: after an accepted capture, if a king of the other side stands in
    the explosion on the board [b1] the explosion runs on, the game state
    is the win of the side that moved, the turn stays with it and the
    squares of those kings are empty; if none does, the turn passes to the
    other side and the game state stays [UNFINISHED]. *)
Theorem win_detection (g g' : ChessVar) (string_from string_to : string)
    (row_from column_from row_to column_to : Z) (q : Piece) (b1 : Board) :
  wf_board (_board g) ->
  square_row string_from = Ok row_from ->
  square_column string_from = Ok column_from ->
  square_row string_to = Ok row_to ->
  square_column string_to = Ok column_to ->
  board_get (_board g) row_to column_to = Ok (Some q) ->
  make_move string_from string_to g = (Ok true, g') ->
  board_set (_board g) row_from column_from None = Ok b1 ->
  ((exists r c, in_blast row_to column_to r c /\
      board_get b1 r c = Ok (Some (mkPiece King (other (_turn g))))) ->
   _game_state g' = won (_turn g) /\
   _turn g' = _turn g /\
   forall r c, in_blast row_to column_to r c ->
     board_get b1 r c = Ok (Some (mkPiece King (other (_turn g)))) ->
     board_get (_board g') r c = Ok None) /\
  (~ (exists r c, in_blast row_to column_to r c /\
        board_get b1 r c = Ok (Some (mkPiece King (other (_turn g))))) ->
   _turn g' = other (_turn g) /\ _game_state g' = UNFINISHED).
Proof.
  intros Hwf Hrf Hcf Hrt Hct Hto Hmove Hb1.
  destruct (capture_accepted g g' _ _ _ _ _ _ _ Hwf Hrf Hcf Hrt Hct Hto Hmove)
    as (p0 & b & _ & _ & _ & _ & Hon & _ & Eb & W1 & _ & W & S & T & C).
  assert (b = b1) by congruence. subst b.
  assert (Hopp : king_in_blast (opp_king (_turn g)) b1 row_to column_to = true <->
            exists r c, in_blast row_to column_to r c /\
              board_get b1 r c = Ok (Some (mkPiece King (other (_turn g))))).
  { rewrite king_in_blast_true. split.
    - intros (r & c & p & Hin & Hcell & Hp). apply opp_king_spec in Hp.
      exists r, c. split; [exact Hin|].
      rewrite (board_get_on_board _ W1) by (destruct Hin; assumption). congruence.
    - intros (r & c & Hin & Hget).
      rewrite (board_get_on_board _ W1) in Hget by (destruct Hin; assumption).
      exists r, c, (mkPiece King (other (_turn g))).
      split; [exact Hin|]. split; [congruence|]. apply opp_king_spec. reflexivity. }
  split.
  - intros Hex. apply Hopp in Hex. rewrite Hex in S, T.
    split; [exact S|]. split; [exact T|].
    intros r c Hin Hget. pose proof Hin as (Hrc & _).
    rewrite (board_get_on_board _ W) by assumption.
    rewrite (board_get_on_board _ W1) in Hget by assumption.
    destruct (C r c Hrc) as [Hcell _]. rewrite (Hcell Hin).
    injection Hget as ->. reflexivity.
  - intros Hno.
    destruct (king_in_blast (opp_king (_turn g)) b1 row_to column_to) eqn:E.
    + exfalso. apply Hno, Hopp. reflexivity.
    + auto.
Qed.

Lemma win_detection_witness :
  let g' := snd (make_move "h5" "f7" queen_raid) in
  _game_state g' = WHITE_WON /\ _turn g' = White /\
  board_get (_board g') 0 4 = Ok None.
Proof.
  intros g'.
  destruct (win_detection queen_raid g' "h5" "f7" 3 7 1 5
              (mkPiece Pawn Black)
              (match board_set (_board queen_raid) 3 7 None with
               | Ok b => b
               | Raise _ => []
               end)
              wf_board_queen_raid eq_refl eq_refl eq_refl eq_refl
              eq_refl eq_refl eq_refl)
    as [Hwin _].
  assert (Hin : in_blast 1 5 0 4) by (unfold in_blast, on_board; simpl; lia).
  destruct Hwin as (S & T & Hking).
  - exists 0, 4. split; [exact Hin | reflexivity].
  - split; [exact S|]. split; [exact T|].
    apply Hking; [exact Hin | reflexivity].
Defined.

(** C4: a call whose destination is occupied while a king of the side to
    move stands in the explosion of that destination returns [False] and
    leaves the board, the turn and the game state as they were. *)
Theorem self_destruction_guard (g : ChessVar) (string_from string_to : string)
    (row_from column_from row_to column_to : Z) (square_from : Square)
    (q : Piece) (r c : Z) :
  wf_board (_board g) ->
  square_row string_from = Ok row_from ->
  square_column string_from = Ok column_from ->
  square_row string_to = Ok row_to ->
  square_column string_to = Ok column_to ->
  board_get (_board g) row_from column_from = Ok square_from ->
  board_get (_board g) row_to column_to = Ok (Some q) ->
  in_blast row_to column_to r c ->
  board_get (_board g) r c = Ok (Some (mkPiece King (_turn g))) ->
  make_move string_from string_to g = (Ok false, g).
Proof.
  intros Hwf Hrf Hcf Hrt Hct Hfrom Hto Hin Hking.
  rewrite (make_move_run g string_from string_to row_from column_from
             row_to column_to square_from (Some q)) by assumption.
  destruct (negb (game_state_eqb _ _)); [reflexivity|].
  destruct (String.eqb _ _); [reflexivity|].
  destruct square_from as [p|]; [|reflexivity].
  destruct (negb (color_eqb _ _)) eqn:Ecol; [reflexivity|].
  destruct (negb (on_boardb _ _)) eqn:Eon; [reflexivity|].
  destruct (own_piece _ _) eqn:Eown; [reflexivity|].
  apply negb_false_iff in Ecol, Eon. apply on_boardb_true in Eon.
  destruct (board_get_wf_range _ Hwf _ _ _ Hfrom) as [Hvr Hvc].
  destruct (is_move_valid_wf _ Hwf row_from column_from row_to column_to
              Hvr Hvc Eon p (Some q)) as [v ->].
  { intros [= -> ->]. assert (p = q) by congruence. subst q.
    simpl in Eown. congruence. }
  destruct v; [|reflexivity].
  destruct (capture_wf g row_from column_from row_to column_to p Hwf Hfrom)
    as [[_ E]|[Hown _]]; [exact E|].
  exfalso.
  assert (king_in_blast (own_king (_turn g)) (_board g) row_to column_to = true);
    [|congruence].
  apply king_in_blast_true. exists r, c, (mkPiece King (_turn g)).
  split; [exact Hin|]. split.
  - rewrite (board_get_on_board _ Hwf) in Hking by (destruct Hin; assumption). congruence.
  - apply own_king_spec. reflexivity.
Qed.

Lemma wf_board_knight_visit : wf_board (_board knight_visit).
Proof. split; [reflexivity | vm_compute; repeat constructor]. Qed.

Lemma self_destruction_guard_witness :
  is_move_valid (mkPiece Pawn White) 6 3 5 4 (Some (mkPiece Knight Black))
    (_board knight_visit) = Ok true /\
  make_move "d2" "e3" knight_visit = (Ok false, knight_visit).
Proof.
  split; [reflexivity|].
  apply (self_destruction_guard knight_visit "d2" "e3" 6 3 5 4
           (Some (mkPiece Pawn White)) (mkPiece Knight Black) 6 4
           wf_board_knight_visit eq_refl eq_refl eq_refl eq_refl eq_refl eq_refl).
  - unfold in_blast, on_board. simpl. lia.
  - reflexivity.
Defined.

(* ================================================================== *)
(** ** The model never runs out of fuel *)

Lemma no_fuel_ret {A : Type} (a : A) : no_fuel (ret a).
Proof. intros g. discriminate. Qed.

Lemma no_fuel_bindM {A B : Type} (m : M A) (k : A -> M B) :
  no_fuel m -> (forall a, no_fuel (k a)) -> no_fuel (bindM m k).
Proof.
  intros Hm Hk g. unfold bindM. specialize (Hm g).
  destruct (m g) as [[a|e] g1]; simpl in *; [apply Hk | congruence].
Qed.

Lemma no_fuel_lift {A : Type} (r : result A) :
  (forall e, r = Raise e -> e = IndexError) -> no_fuel (lift r).
Proof.
  intros H g. unfold lift. simpl. intros ->.
  specialize (H _ eq_refl). discriminate.
Qed.

Lemma board_set_Raise (board : Board) (row column : Z) (v : Square)
    (e : Exception) :
  board_set board row column v = Raise e -> e = IndexError.
Proof.
  unfold board_set, list_setitem.
  destruct (list_getitem board row) as [r|e1] eqn:E1; simpl.
  - destruct (py_index (Z.of_nat (length r)) column) as [k|e2] eqn:E2; simpl.
    + destruct (py_index (Z.of_nat (length board)) row) as [k'|e3] eqn:E3; simpl;
        [discriminate|].
      intros [= <-]. eauto using py_index_Raise.
    + intros [= <-]. eauto using py_index_Raise.
  - intros [= <-]. eauto using list_getitem_Raise.
Qed.

Lemma no_fuel_board_setitem (row column : Z) (v : Square) :
  no_fuel (board_setitem row column v).
Proof.
  intros g. unfold board_setitem.
  destruct (board_set _ _ _ _) as [b|e] eqn:E; simpl; [discriminate|].
  apply board_set_Raise in E. congruence.
Qed.

Lemma no_fuel_change_turn : no_fuel change_turn.
Proof. intros g. unfold change_turn, bindM, get_turn. simpl. destruct (_turn g); discriminate. Qed.

Lemma no_fuel_for_each (l : list Z) (body : Z -> M unit) :
  (forall x, no_fuel (body x)) -> no_fuel (for_each l body).
Proof.
  intros Hb. induction l as [|x l IH]; simpl.
  - apply no_fuel_ret.
  - apply no_fuel_bindM; [apply Hb | intros _; exact IH].
Qed.

Lemma scan_Raise (board : Board) (pred : Piece -> bool) (row_to column_to : Z)
    (e : Exception) :
  for_any (blast_range row_to) (fun row =>
    for_any (blast_range column_to) (fun column =>
      do piece <- board_get board row column ;;
      match piece with
      | Some p => Ok (pred p)
      | None => Ok false
      end)) = Raise e ->
  e = IndexError.
Proof.
  apply for_any_Raise. intros row e1. apply for_any_Raise. intros column e2.
  destruct (board_get board row column) as [[p|]|e3] eqn:E; simpl;
    try discriminate.
  intros [= <-]. eauto using board_get_Raise.
Qed.

Lemma no_fuel_execute_explosion (row_to column_to : Z) :
  no_fuel (execute_explosion row_to column_to).
Proof.
  unfold execute_explosion.
  apply no_fuel_for_each. intros row. apply no_fuel_for_each. intros column.
  apply no_fuel_bindM; [intros g; discriminate|]. intros board.
  apply no_fuel_bindM; [apply no_fuel_lift, board_get_Raise|].
  intros [p|]; [|apply no_fuel_ret].
  destruct (negb _); [apply no_fuel_board_setitem | apply no_fuel_ret].
Qed.

Lemma no_fuel_relocate (row_from column_from row_to column_to : Z)
    (square_from : Square) :
  no_fuel (relocate row_from column_from row_to column_to square_from).
Proof.
  unfold relocate.
  repeat (apply no_fuel_bindM;
          [first [apply no_fuel_board_setitem | apply no_fuel_change_turn]
          | intros _]).
  apply no_fuel_ret.
Qed.

Lemma no_fuel_capture (row_from column_from row_to column_to : Z)
    (turn : Color) :
  no_fuel (capture row_from column_from row_to column_to turn).
Proof.
  assert (Hget : forall A (f : ChessVar -> A),
            no_fuel (fun self => (Ok (f self), self))).
  { intros A f g. discriminate. }
  unfold capture.
  apply no_fuel_bindM.
  { unfold is_own_king_exploded.
    apply no_fuel_bindM; [apply Hget|]. intros board.
    apply no_fuel_bindM; [apply Hget|]. intros t.
    apply no_fuel_lift. intros e.
    apply (scan_Raise board (fun p => symbol_head_is p "K" && color_eqb (get_color p) t)). }
  intros [|]; [apply no_fuel_ret|].
  apply no_fuel_bindM; [apply no_fuel_board_setitem | intros _].
  apply no_fuel_bindM.
  { unfold is_opponent_king_exploded.
    apply no_fuel_bindM; [apply Hget|]. intros board.
    apply no_fuel_bindM; [apply Hget|]. intros t.
    apply no_fuel_lift. intros e.
    apply (scan_Raise board
             (fun p => symbol_head_is p "K" && negb (color_eqb (get_color p) t))). }
  intros opp.
  apply no_fuel_bindM.
  { destruct opp; [destruct turn; intros g; discriminate | apply no_fuel_change_turn]. }
  intros _.
  apply no_fuel_bindM; [apply no_fuel_execute_explosion | intros _].
  apply no_fuel_ret.
Qed.

(** Whatever the object and the two strings, a call of [make_move] returns
    or raises a Python exception: the loop of the bishop rule always has
    fuel left. *)
Theorem make_move_fuel (string_from string_to : string) :
  no_fuel (make_move string_from string_to).
Proof.
  intros g.
  destruct (make_move_cases g string_from string_to)
    as [ | e He | rf cf rt ct p [q|] ]; simpl.
  - discriminate.
  - congruence.
  - apply no_fuel_capture.
  - apply no_fuel_relocate.
Qed.

(* ================================================================== *)
(** ** Reachable objects *)

Lemma kings_invariant_init : kings_invariant init.
Proof.
  split; [exact wf_board_init|]. intros _ [|].
  - exists 7, 4. split; [unfold on_board; lia | reflexivity].
  - exists 0, 4. split; [unfold on_board; lia | reflexivity].
Qed.

Lemma kings_invariant_relocate (g g' : ChessVar)
    (row_from column_from row_to column_to : Z) (p : Piece) :
  kings_invariant g ->
  board_get (_board g) row_from column_from = Ok (Some p) ->
  board_get (_board g) row_to column_to = Ok None ->
  on_board row_to column_to ->
  relocate row_from column_from row_to column_to (Some p) g = (Ok true, g') ->
  kings_invariant g'.
Proof.
  intros [Hwf Hkings] Hp Hto Hon Hexec.
  destruct (relocate_wf g row_from column_from row_to column_to p Hwf Hp Hon)
    as (g1 & E1 & W1 & T1 & S1 & C1).
  assert (g1 = g') by congruence. subst g1.
  split; [exact W1|]. intros Hst color. rewrite S1 in Hst.
  destruct (Hkings Hst color) as (r & c & Hrc & Hcell).
  destruct (board_get_wf_range _ Hwf _ _ _ Hp) as [Hvr Hvc].
  rewrite (board_get_wf _ Hwf) in Hp by assumption.
  rewrite (board_get_on_board _ Hwf) in Hto by assumption.
  injection Hp as Hp. injection Hto as Hto.
  destruct ((r =? norm row_from) && (c =? norm column_from)) eqn:Eorigin.
  - apply andb_true_iff in Eorigin as [Er Ec].
    apply Z.eqb_eq in Er, Ec. subst r c.
    exists row_to, column_to. split; [exact Hon|].
    rewrite (C1 _ _ Hon), !Z.eqb_refl. simpl. congruence.
  - exists r, c. split; [exact Hrc|].
    rewrite (C1 _ _ Hrc), Eorigin.
    destruct (Z.eqb_spec r row_to) as [->|]; simpl; [|exact Hcell].
    destruct (Z.eqb_spec c column_to) as [->|]; simpl; [|exact Hcell].
    congruence.
Qed.

Lemma kings_invariant_capture (g : ChessVar)
    (row_from column_from row_to column_to : Z) (p : Piece) :
  kings_invariant g ->
  board_get (_board g) row_from column_from = Ok (Some p) ->
  kind p <> King ->
  kings_invariant
    (snd (capture row_from column_from row_to column_to (_turn g) g)).
Proof.
  intros [Hwf Hkings] Hp Hk.
  destruct (capture_wf g row_from column_from row_to column_to p Hwf Hp)
    as [[_ E]|(Hown & b1 & g' & E1 & W1 & C1 & E & W & S & T & C)];
    rewrite E; simpl; [split; assumption|].
  split; [exact W|]. intros Hst color.
  destruct (king_in_blast (opp_king (_turn g)) b1 row_to column_to) eqn:Eopp.
  { rewrite S in Hst. destruct (_turn g); discriminate. }
  rewrite S in Hst.
  destruct (Hkings Hst color) as (r & c & Hrc & Hcell).
  destruct (board_get_wf_range _ Hwf _ _ _ Hp) as [Hvr Hvc].
  rewrite (board_get_wf _ Hwf) in Hp by assumption. injection Hp as Hp.
  assert (Hb1 : cell b1 r c = Some (mkPiece King color)).
  { rewrite (C1 _ _ Hrc).
    destruct (Z.eqb_spec r (norm row_from)) as [->|]; simpl; [|exact Hcell].
    destruct (Z.eqb_spec c (norm column_from)) as [->|]; simpl; [|exact Hcell].
    rewrite Hp in Hcell. injection Hcell as ->. simpl in Hk. congruence. }
  exists r, c. split; [exact Hrc|].
  destruct (C r c Hrc) as [_ Hout]. rewrite Hout; [exact Hb1|].
  intros Hin.
  assert (Hcolor : color = _turn g \/ color = other (_turn g))
    by (destruct color, (_turn g); auto).
  destruct Hcolor as [-> | ->].
  - assert (king_in_blast (own_king (_turn g)) (_board g) row_to column_to = true);
      [|congruence].
    apply king_in_blast_true. exists r, c, (mkPiece King (_turn g)).
    split; [exact Hin|]. split; [exact Hcell|]. apply own_king_spec. reflexivity.
  - assert (king_in_blast (opp_king (_turn g)) b1 row_to column_to = true);
      [|congruence].
    apply king_in_blast_true. exists r, c, (mkPiece King (other (_turn g))).
    split; [exact Hin|]. split; [exact Hb1|]. apply opp_king_spec. reflexivity.
Qed.

Lemma kings_invariant_make_move (g : ChessVar) (string_from string_to : string) :
  kings_invariant g ->
  kings_invariant (snd (make_move string_from string_to g)).
Proof.
  intros Hinv.
  destruct (make_move_cases g string_from string_to)
    as [ | e He | rf cf rt ct p sq Hst Hrf Hcf Hrt Hct Hp Hsq Hcol Hon Hown Hvalid];
    [exact Hinv | exact Hinv |].
  destruct sq as [q|].
  - apply (kings_invariant_capture g rf cf rt ct p Hinv Hp).
    intros Hk. unfold is_move_valid, King_is_move_valid in Hvalid.
    rewrite Hk in Hvalid. discriminate.
  - destruct Hinv as [Hwf Hkings].
    destruct (relocate_wf g rf cf rt ct p Hwf Hp Hon) as (g1 & E1 & _).
    rewrite E1. simpl.
    apply (kings_invariant_relocate g g1 rf cf rt ct p); auto. split; assumption.
Qed.

Lemma reachable_invariant (g : ChessVar) : reachable g -> kings_invariant g.
Proof.
  induction 1 as [|g sf st _ IH].
  - exact kings_invariant_init.
  - apply kings_invariant_make_move. exact IH.
Qed.

Lemma reachable_play (moves : list (string * string)) (g : ChessVar) :
  reachable g -> reachable (play moves g).
Proof.
  unfold play. revert g. induction moves as [|[sf st] moves IH]; intros g Hg; simpl.
  - exact Hg.
  - apply IH. apply reachable_move. exact Hg.
Qed.

(** C10: in every object reached from a fresh game by calls of [make_move],
    if the game state is [UNFINISHED] then a white king and a black king
    stand on the board. *)
Theorem kings_present (g : ChessVar) :
  reachable g ->
  _game_state g = UNFINISHED ->
  (exists r c, on_board r c /\
     board_get (_board g) r c = Ok (Some (mkPiece King White))) /\
  (exists r c, on_board r c /\
     board_get (_board g) r c = Ok (Some (mkPiece King Black))).
Proof.
  intros Hreach Hst.
  destruct (reachable_invariant g Hreach) as [Hwf Hkings].
  split.
  - destruct (Hkings Hst White) as (r & c & Hrc & Hcell).
    exists r, c. split; [exact Hrc|].
    rewrite (board_get_on_board _ Hwf) by assumption. congruence.
  - destruct (Hkings Hst Black) as (r & c & Hrc & Hcell).
    exists r, c. split; [exact Hrc|].
    rewrite (board_get_on_board _ Hwf) by assumption. congruence.
Qed.

Lemma kings_present_witness :
  (exists r c, on_board r c /\
     board_get (_board knight_visit) r c = Ok (Some (mkPiece King White))) /\
  (exists r c, on_board r c /\
     board_get (_board knight_visit) r c = Ok (Some (mkPiece King Black))).
Proof.
  apply (kings_present knight_visit).
  - unfold knight_visit, play. cbn [fold_left fst snd].
    do 6 apply reachable_move. apply reachable_init.
  - reflexivity.
Defined.

(* ================================================================== *)
(** ** Further properties of the movement rules *)

Lemma for_any_blocked (l : list Z) (get : Z -> result Square) :
  for_any l (fun x => do sq <- get x ;; Ok (negb (is_None sq))) = Ok false <->
  forall x, In x l -> get x = Ok None.
Proof.
  induction l as [|y l IH]; simpl.
  - split; [intros _ x [] | reflexivity].
  - destruct (get y) as [[p|]|e] eqn:E; simpl.
    + split; [discriminate|]. intros H. specialize (H y (or_introl eq_refl)).
      congruence.
    + rewrite IH. split.
      * intros H x [<-|Hx]; [exact E | apply H; exact Hx].
      * intros H x Hx. apply H. right. exact Hx.
    + split; [discriminate|]. intros H. specialize (H y (or_introl eq_refl)).
      congruence.
Qed.

Lemma in_py_range_between (a b x : Z) :
  In x (py_range (a + (if a <? b then 1 else -1)) b (if a <? b then 1 else -1))
  <-> Z.min a b < x < Z.max a b.
Proof.
  destruct (Z.ltb_spec a b);
    [rewrite in_py_range_up | rewrite in_py_range_down]; lia.
Qed.

Lemma Rook_is_move_valid_true (board : Board)
    (row_from column_from row_to column_to : Z) (square_to : Square) :
  Rook_is_move_valid row_from column_from row_to column_to square_to board
    = Ok true <->
  (column_from = column_to /\
   forall r, Z.min row_from row_to < r < Z.max row_from row_to ->
     board_get board r column_from = Ok None) \/
  (row_from = row_to /\
   forall c, Z.min column_from column_to < c < Z.max column_from column_to ->
     board_get board row_from c = Ok None).
Proof.
  assert (Hloop : forall l (get : Z -> result Square),
            (do blocked <- for_any l (fun x => do sq <- get x ;; Ok (negb (is_None sq))) ;;
             Ok (negb blocked)) = Ok true <->
            forall x, In x l -> get x = Ok None).
  { intros l get. rewrite <- for_any_blocked.
    destruct (for_any l _) as [[|]|e]; simpl; split; congruence. }
  unfold Rook_is_move_valid.
  destruct (Z.eqb_spec column_from column_to) as [Ec|Ec].
  - rewrite Hloop. split.
    + intros H. left. split; [exact Ec|]. intros r Hr. apply H.
      apply in_py_range_between. exact Hr.
    + intros [[_ H]|[Er H]] x Hx; apply in_py_range_between in Hx;
        [apply H; exact Hx | lia].
  - destruct (Z.eqb_spec row_from row_to) as [Er|Er].
    + rewrite Hloop. split.
      * intros H. right. split; [exact Er|]. intros c Hc. apply H.
        apply in_py_range_between. exact Hc.
      * intros [[E _]|[_ H]] x Hx; [contradiction|]. apply H.
        apply in_py_range_between. exact Hx.
    + split; [discriminate|]. intros [[E _]|[E _]]; contradiction.
Qed.

Lemma Bishop_is_move_valid_true (board : Board)
    (row_from column_from row_to column_to : Z) (square_to : Square) :
  (row_from, column_from) <> (row_to, column_to) ->
  Bishop_is_move_valid row_from column_from row_to column_to square_to board
    = Ok true <->
  Z.abs (row_from - row_to) = Z.abs (column_from - column_to) /\
  forall k, 0 < k < Z.abs (row_from - row_to) ->
    board_get board
      (row_from + k * (if row_from <? row_to then 1 else -1))
      (column_from + k * (if column_from <? column_to then 1 else -1))
    = Ok None.
Proof.
  intros Hne.
  destruct (Z.eq_dec (Z.abs (column_from - column_to)) (Z.abs (row_from - row_to)))
    as [Habs|Habs].
  - assert (Hrne : row_from <> row_to).
    { intros ->. apply Hne. f_equal. lia. }
    rewrite Bishop_is_move_valid_path by assumption.
    rewrite path_clear_true. split.
    + intros H. split; [lia|]. intros k Hk.
      specialize (H (Z.abs (row_from - row_to) - k)).
      destruct (Z.ltb_spec row_from row_to), (Z.ltb_spec column_from column_to);
        (rewrite <- H by lia; f_equal; lia).
    + intros [_ H] k Hk.
      specialize (H (Z.abs (row_from - row_to) - k)).
      destruct (Z.ltb_spec row_from row_to), (Z.ltb_spec column_from column_to);
        (rewrite <- H by lia; f_equal; lia).
  - unfold Bishop_is_move_valid.
    apply Z.eqb_neq in Habs as Hb. rewrite Hb. simpl.
    split; [discriminate | intros [H _]; lia].
Qed.

Lemma Rook_is_move_valid_line (board : Board)
    (row_from column_from row_to column_to : Z) (square_to : Square) :
  Rook_is_move_valid row_from column_from row_to column_to square_to board
    <> Ok false ->
  column_from = column_to \/ row_from = row_to.
Proof.
  unfold Rook_is_move_valid.
  destruct (Z.eqb_spec column_from column_to); [auto|].
  destruct (Z.eqb_spec row_from row_to); [auto|]. congruence.
Qed.

Lemma Queen_is_move_valid_true (board : Board)
    (row_from column_from row_to column_to : Z) (square_to : Square) :
  (row_from, column_from) <> (row_to, column_to) ->
  Queen_is_move_valid row_from column_from row_to column_to square_to board
    = Ok true <->
  Rook_is_move_valid row_from column_from row_to column_to square_to board
    = Ok true \/
  Bishop_is_move_valid row_from column_from row_to column_to square_to board
    = Ok true.
Proof.
  intros Hne. unfold Queen_is_move_valid.
  assert (Hline : column_from = column_to \/ row_from = row_to ->
            Bishop_is_move_valid row_from column_from row_to column_to
              square_to board = Ok false).
  { intros Hl. unfold Bishop_is_move_valid.
    destruct (Z.eqb_spec (Z.abs (column_from - column_to))
                (Z.abs (row_from - row_to))) as [Habs|_]; [|reflexivity].
    exfalso. apply Hne. destruct Hl; f_equal; lia. }
  pose proof (Rook_is_move_valid_line board row_from column_from row_to
                column_to square_to) as Hrook.
  destruct (Rook_is_move_valid _ _ _ _ _ _) as [[|]|e]; simpl.
  - rewrite Hline by (apply Hrook; discriminate). simpl.
    split; [auto | reflexivity].
  - destruct (Bishop_is_move_valid _ _ _ _ _ _) as [[|]|e]; simpl;
      split; try discriminate; auto; intros [H|H]; discriminate.
  - rewrite Hline by (apply Hrook; discriminate).
    split; [discriminate | intros [H|H]; discriminate].
Qed.

Lemma bishop_path_backwards (board : Board) (row_to column_to : Z) :
  forall (fuel : nat) (r c : Z),
  r < row_to -> c < column_to ->
  bishop_path fuel board row_to column_to (-1) (-1) r c <> Ok true.
Proof.
  induction fuel as [|f IH]; intros r c Hr Hc; simpl;
    destruct (Z.eqb_spec r row_to); try lia;
    destruct (Z.eqb_spec c column_to); try lia; simpl.
  - discriminate.
  - destruct (board_get board r c) as [sq|e]; simpl; [|discriminate].
    destruct (negb (is_None sq)); [discriminate|].
    apply IH; lia.
Qed.

(** X1: the rook rule returns [True] exactly when the move stays in its
    column and every square strictly between reads empty, or stays in its
    row and every square strictly between reads empty (a zero-distance move
    included); on a board of 8x8 squares, for an origin that indexes the
    board and a destination on the board, it returns a boolean. *)
Theorem rook_move_legality (board : Board)
    (row_from column_from row_to column_to : Z) (square_to : Square) :
  (Rook_is_move_valid row_from column_from row_to column_to square_to board
     = Ok true <->
   (column_from = column_to /\
    forall r, Z.min row_from row_to < r < Z.max row_from row_to ->
      board_get board r column_from = Ok None) \/
   (row_from = row_to /\
    forall c, Z.min column_from column_to < c < Z.max column_from column_to ->
      board_get board row_from c = Ok None)) /\
  (wf_board board -> -8 <= row_from < 8 -> -8 <= column_from < 8 ->
   on_board row_to column_to ->
   exists v,
     Rook_is_move_valid row_from column_from row_to column_to square_to board
       = Ok v).
Proof.
  split.
  - apply Rook_is_move_valid_true.
  - intros Hwf Hr Hc Hto. apply Rook_is_move_valid_wf; assumption.
Qed.

Lemma rook_move_legality_witness :
  Rook_is_move_valid 7 0 3 0 None (_board init) = Ok false /\
  exists v, Rook_is_move_valid 7 0 3 0 None (_board init) = Ok v.
Proof.
  split; [reflexivity|].
  apply (rook_move_legality (_board init) 7 0 3 0 None).
  - exact wf_board_init.
  - lia.
  - lia.
  - unfold on_board. lia.
Defined.

(** X2: for an origin distinct from the destination, the queen rule
    returns [True] exactly when the move is a clear rook line or a clear
    bishop diagonal; on a board of 8x8 squares with both squares on the
    board it returns a boolean. *)
Theorem queen_move_legality (board : Board)
    (row_from column_from row_to column_to : Z) (square_to : Square) :
  (row_from, column_from) <> (row_to, column_to) ->
  (Queen_is_move_valid row_from column_from row_to column_to square_to board
     = Ok true <->
   (column_from = column_to /\
    forall r, Z.min row_from row_to < r < Z.max row_from row_to ->
      board_get board r column_from = Ok None) \/
   (row_from = row_to /\
    forall c, Z.min column_from column_to < c < Z.max column_from column_to ->
      board_get board row_from c = Ok None) \/
   (Z.abs (row_from - row_to) = Z.abs (column_from - column_to) /\
    forall k, 0 < k < Z.abs (row_from - row_to) ->
      board_get board
        (row_from + k * (if row_from <? row_to then 1 else -1))
        (column_from + k * (if column_from <? column_to then 1 else -1))
      = Ok None)) /\
  (wf_board board -> on_board row_from column_from -> on_board row_to column_to ->
   exists v,
     Queen_is_move_valid row_from column_from row_to column_to square_to board
       = Ok v).
Proof.
  intros Hne. split.
  - rewrite (Queen_is_move_valid_true board _ _ _ _ _ Hne).
    rewrite Rook_is_move_valid_true.
    rewrite (Bishop_is_move_valid_true board _ _ _ _ _ Hne). tauto.
  - intros Hwf [Hr Hc] Hto. unfold Queen_is_move_valid.
    destruct (Rook_is_move_valid_wf board Hwf row_from column_from row_to
                column_to) with (square_to := square_to) as [v ->];
      [lia | lia | exact Hto |].
    destruct (Bishop_is_move_valid_wf board Hwf row_from column_from row_to
                column_to) with (square_to := square_to) as [v' ->];
      [lia | lia | exact Hto | exact Hne |].
    simpl. eauto.
Qed.

Lemma queen_move_legality_witness :
  Queen_is_move_valid 7 3 3 7 None (_board queen_raid) = Ok true /\
  exists v, Queen_is_move_valid 7 3 3 7 None (_board queen_raid) = Ok v.
Proof.
  split; [reflexivity|].
  apply (queen_move_legality (_board queen_raid) 7 3 3 7 None).
  - intros [=].
  - exact wf_board_queen_raid.
  - unfold on_board. lia.
  - unfold on_board. lia.
Defined.

(** X3: the bishop rule never returns [True] for a move whose destination
    is its origin: its loop walks away from the target, so it returns
    [False] at the first occupied square or raises [IndexError] when it
    leaves the board. *)
Theorem bishop_zero_distance (board : Board) (row column : Z)
    (square_to : Square) :
  Bishop_is_move_valid row column row column square_to board = Ok false \/
  Bishop_is_move_valid row column row column square_to board = Raise IndexError.
Proof.
  destruct (Bishop_is_move_valid row column row column square_to board)
    as [[|]|e] eqn:E.
  - exfalso. unfold Bishop_is_move_valid in E.
    rewrite !Z.sub_diag, !Z.ltb_irrefl in E.
    change (negb (Z.abs 0 =? Z.abs 0)) with false in E. cbv iota in E.
    apply bishop_path_backwards in E; [exact E | lia | lia].
  - left. reflexivity.
  - right. apply Bishop_is_move_valid_Raise in E. congruence.
Qed.

(* ================================================================== *)
(** ** Further properties of the scans and of the explosion *)

Lemma classic_in_blast (row_to column_to r c : Z) :
  in_blast row_to column_to r c \/ ~ in_blast row_to column_to r c.
Proof. unfold in_blast, on_board. lia. Qed.

Lemma wf_board_ext (b1 b2 : Board) :
  wf_board b1 -> wf_board b2 ->
  (forall r c, on_board r c -> cell b1 r c = cell b2 r c) ->
  b1 = b2.
Proof.
  intros W1 W2 H. apply list_eq. intros i.
  destruct (Nat.lt_ge_cases i 8) as [Hi|Hi].
  - destruct (wf_row b1 W1 i Hi) as (r1 & E1 & L1).
    destruct (wf_row b2 W2 i Hi) as (r2 & E2 & L2).
    rewrite E1, E2. f_equal. apply list_eq. intros j.
    destruct (Nat.lt_ge_cases j 8) as [Hj|Hj].
    + destruct (lookup_lt_is_Some_2 r1 j) as [s1 F1]; [lia|].
      destruct (lookup_lt_is_Some_2 r2 j) as [s2 F2]; [lia|].
      specialize (H (Z.of_nat i) (Z.of_nat j)). unfold cell in H.
      rewrite !Nat2Z.id, E1, E2, F1, F2 in H.
      rewrite F1, F2. f_equal. apply H. unfold on_board. lia.
    + rewrite !lookup_ge_None_2 by lia. reflexivity.
  - destruct W1 as [L1 _], W2 as [L2 _].
    rewrite !lookup_ge_None_2 by lia. reflexivity.
Qed.

(** X4: on a board of 8x8 squares, for any centre, [is_own_king_exploded]
    leaves the object as it is and returns [True] exactly when a king of
    the side to move stands on a square of the 3x3 neighbourhood of the
    centre cut to the board. *)
Theorem own_king_scan (g : ChessVar) (row_to column_to : Z) :
  wf_board (_board g) ->
  exists v,
    is_own_king_exploded row_to column_to g = (Ok v, g) /\
    (v = true <->
     exists r c, in_blast row_to column_to r c /\
       board_get (_board g) r c = Ok (Some (mkPiece King (_turn g)))).
Proof.
  intros Hwf. eexists. split; [apply is_own_king_exploded_wf; exact Hwf|].
  rewrite king_in_blast_true. split.
  - intros (r & c & p & Hin & Hcell & Hp). apply own_king_spec in Hp.
    exists r, c. split; [exact Hin|].
    rewrite (board_get_on_board _ Hwf) by (destruct Hin; assumption). congruence.
  - intros (r & c & Hin & Hget).
    rewrite (board_get_on_board _ Hwf) in Hget by (destruct Hin; assumption).
    exists r, c, (mkPiece King (_turn g)).
    split; [exact Hin|]. split; [congruence|]. apply own_king_spec. reflexivity.
Qed.

Lemma own_king_scan_witness :
  is_own_king_exploded 5 4 knight_visit = (Ok true, knight_visit) /\
  exists v, is_own_king_exploded 5 4 knight_visit = (Ok v, knight_visit).
Proof.
  split; [reflexivity|].
  destruct (own_king_scan knight_visit 5 4 wf_board_knight_visit) as (v & E & _).
  exists v. exact E.
Defined.

(** X5: on a board of 8x8 squares, for any centre,
    [is_opponent_king_exploded] leaves the object as it is and returns
    [True] exactly when a king of the side that is not to move stands on a
    square of the 3x3 neighbourhood of the centre cut to the board. *)
Theorem opponent_king_scan (g : ChessVar) (row_to column_to : Z) :
  wf_board (_board g) ->
  exists v,
    is_opponent_king_exploded row_to column_to g = (Ok v, g) /\
    (v = true <->
     exists r c, in_blast row_to column_to r c /\
       board_get (_board g) r c = Ok (Some (mkPiece King (other (_turn g))))).
Proof.
  intros Hwf. eexists. split; [apply is_opponent_king_exploded_wf; exact Hwf|].
  rewrite king_in_blast_true. split.
  - intros (r & c & p & Hin & Hcell & Hp). apply opp_king_spec in Hp.
    exists r, c. split; [exact Hin|].
    rewrite (board_get_on_board _ Hwf) by (destruct Hin; assumption). congruence.
  - intros (r & c & Hin & Hget).
    rewrite (board_get_on_board _ Hwf) in Hget by (destruct Hin; assumption).
    exists r, c, (mkPiece King (other (_turn g))).
    split; [exact Hin|]. split; [congruence|]. apply opp_king_spec. reflexivity.
Qed.

Lemma opponent_king_scan_witness :
  is_opponent_king_exploded 1 5 queen_raid = (Ok true, queen_raid) /\
  exists v, is_opponent_king_exploded 1 5 queen_raid = (Ok v, queen_raid).
Proof.
  split; [reflexivity|].
  destruct (opponent_king_scan queen_raid 1 5 wf_board_queen_raid) as (v & E & _).
  exists v. exact E.
Defined.

(** X6: on a board of 8x8 squares, for any centre, [execute_explosion]
    returns without raising, keeps the board 8x8 and the turn and the game
    state as they are, and changes no square outside the 3x3 neighbourhood
    of the centre cut to the board; inside it, an empty square stays empty,
    a pawn off the centre stays, and every other piece is removed. *)
Theorem explosion_frame (g : ChessVar) (row_to column_to : Z) :
  wf_board (_board g) ->
  exists g',
    execute_explosion row_to column_to g = (Ok tt, g') /\
    wf_board (_board g') /\
    _turn g' = _turn g /\
    _game_state g' = _game_state g /\
    forall r c, on_board r c ->
      (~ in_blast row_to column_to r c ->
         board_get (_board g') r c = board_get (_board g) r c) /\
      (in_blast row_to column_to r c ->
         (board_get (_board g) r c = Ok None ->
            board_get (_board g') r c = Ok None) /\
         (forall p, board_get (_board g) r c = Ok (Some p) ->
            kind p = Pawn -> (r, c) <> (row_to, column_to) ->
            board_get (_board g') r c = Ok (Some p)) /\
         (forall p, board_get (_board g) r c = Ok (Some p) ->
            kind p <> Pawn \/ (r, c) = (row_to, column_to) ->
            board_get (_board g') r c = Ok None)).
Proof.
  intros Hwf.
  destruct (execute_explosion_wf row_to column_to g Hwf)
    as (g' & E & W & T & S & C).
  exists g'. split; [exact E|]. split; [exact W|]. split; [exact T|].
  split; [exact S|]. intros r c Hrc.
  rewrite (board_get_on_board _ W), (board_get_on_board _ Hwf) by assumption.
  destruct (C r c Hrc) as [Hin Hout]. split.
  - intros H. rewrite (Hout H). reflexivity.
  - intros H. rewrite (Hin H). split; [|split].
    + intros [= ->]. reflexivity.
    + intros p [= ->] Hk Hne. rewrite blast_sq_pawn by assumption. reflexivity.
    + intros p [= ->] Hcase. f_equal. unfold blast_sq.
      rewrite symbol_head_is_P.
      destruct Hcase as [Hk|[= -> ->]].
      * destruct (kind p); try reflexivity. congruence.
      * rewrite !Z.eqb_refl. simpl. rewrite andb_false_r. reflexivity.
Qed.

Lemma explosion_frame_witness :
  exists g',
    execute_explosion 1 5 queen_raid = (Ok tt, g') /\
    board_get (_board g') 0 4 = Ok None /\
    board_get (_board g') 1 6 = Ok (Some (mkPiece Pawn Black)) /\
    board_get (_board g') 0 3 = Ok (Some (mkPiece Queen Black)).
Proof.
  destruct (explosion_frame queen_raid 1 5 wf_board_queen_raid)
    as (g' & E & _ & _ & _ & C).
  exists g'. split; [exact E|].
  split; [|split].
  - destruct (C 0 4) as [_ Hin]; [unfold on_board; lia|].
    destruct Hin as (_ & _ & Hgone); [unfold in_blast, on_board; simpl; lia|].
    apply (Hgone (mkPiece King Black)); [reflexivity|].
    left. discriminate.
  - destruct (C 1 6) as [_ Hin]; [unfold on_board; lia|].
    destruct Hin as (_ & Hstay & _); [unfold in_blast, on_board; simpl; lia|].
    apply Hstay; [reflexivity | reflexivity | intros [=]].
  - destruct (C 0 3) as [Hout _]; [unfold on_board; lia|].
    rewrite Hout; [reflexivity|].
    unfold in_blast. simpl. lia.
Defined.

(** X7: on a board of 8x8 squares, a second explosion at the same centre
    changes nothing: [execute_explosion] is idempotent. *)
Theorem explosion_idempotent (g g' : ChessVar) (row_to column_to : Z) :
  wf_board (_board g) ->
  execute_explosion row_to column_to g = (Ok tt, g') ->
  execute_explosion row_to column_to g' = (Ok tt, g').
Proof.
  intros Hwf E.
  destruct (execute_explosion_wf row_to column_to g Hwf)
    as (g1 & E1 & W1 & T1 & S1 & C1).
  assert (g1 = g') by congruence. subst g1.
  destruct (execute_explosion_wf row_to column_to g' W1)
    as (g2 & E2 & W2 & T2 & S2 & C2).
  rewrite E2. f_equal.
  assert (Hb : _board g2 = _board g').
  { apply wf_board_ext; [exact W2 | exact W1 |]. intros r c Hrc.
    destruct (C2 r c Hrc) as [Hin2 Hout2]. destruct (C1 r c Hrc) as [Hin1 _].
    destruct (classic_in_blast row_to column_to r c) as [Hin|Hout].
    - rewrite (Hin2 Hin), (Hin1 Hin). apply blast_sq_idem.
    - apply Hout2. exact Hout. }
  destruct g2, g'. simpl in *. congruence.
Qed.

Lemma explosion_idempotent_witness :
  execute_explosion 1 5 (snd (execute_explosion 1 5 queen_raid))
  = (Ok tt, snd (execute_explosion 1 5 queen_raid)).
Proof.
  apply (explosion_idempotent queen_raid _ 1 5 wf_board_queen_raid).
  reflexivity.
Defined.

(** X8: [change_turn] touches the turn only, and two calls in a row give
    the object back. *)
Theorem change_turn_involution (g : ChessVar) :
  (exists g', change_turn g = (Ok tt, g') /\
     _turn g' = other (_turn g) /\ _board g' = _board g /\
     _game_state g' = _game_state g) /\
  (doM _ <- change_turn ;; change_turn) g = (Ok tt, g).
Proof.
  unfold change_turn, bindM, get_turn, set_turn.
  destruct g as [b s [|]]; simpl; split; try reflexivity;
    eexists; split; reflexivity || (simpl; auto).
Qed.

(** X9: [get_symbol] tells the pieces apart: two pieces with the same
    symbol have the same kind and the same colour, and the first character
    of the symbol is ['K'] for kings only and ['P'] for pawns only. *)
Theorem get_symbol_injective (p1 p2 : Piece) :
  (get_symbol p1 = get_symbol p2 -> p1 = p2) /\
  (symbol_head_is p1 "K" = true <-> kind p1 = King) /\
  (symbol_head_is p1 "P" = true <-> kind p1 = Pawn).
Proof.
  split; [|split].
  - destruct p1 as [[] []], p2 as [[] []]; simpl; intros H;
      first [reflexivity | discriminate H].
  - rewrite symbol_head_is_K. destruct (kind p1); split; congruence.
  - rewrite symbol_head_is_P. destruct (kind p1); split; congruence.
Qed.

Lemma get_symbol_injective_witness :
  mkPiece King White = mkPiece King White.
Proof.
  apply (proj1 (get_symbol_injective (mkPiece King White) (mkPiece King White))).
  reflexivity.
Defined.

(* ================================================================== *)
(** ** Further properties of [make_move] *)

(** What a call leaves behind on a board of 8x8 squares: the object as it
    was, with anything but [True] returned, or the object after the
    relocation or the capture, with [True] returned. *)
Lemma make_move_wf_cases (g : ChessVar) (string_from string_to : string) :
  wf_board (_board g) ->
  (fst (make_move string_from string_to g) <> Ok true /\
   snd (make_move string_from string_to g) = g) \/
  (exists row_from column_from row_to column_to p square_to,
     _game_state g = UNFINISHED /\
     square_row string_from = Ok row_from /\
     square_column string_from = Ok column_from /\
     square_row string_to = Ok row_to /\
     square_column string_to = Ok column_to /\
     board_get (_board g) row_from column_from = Ok (Some p) /\
     board_get (_board g) row_to column_to = Ok square_to /\
     get_color p = _turn g /\
     on_board row_to column_to /\
     own_piece (_turn g) square_to = false /\
     fst (make_move string_from string_to g) = Ok true /\
     match square_to with
     | None => relocate row_from column_from row_to column_to (Some p) g
     | Some _ => capture row_from column_from row_to column_to (_turn g) g
     end = (Ok true, snd (make_move string_from string_to g))).
Proof.
  intros Hwf.
  destruct (make_move_cases g string_from string_to)
    as [ | e He | rf cf rt ct p sq Hst Hrf Hcf Hrt Hct Hp Hsq Hcol Hon Hown Hvalid].
  - left. split; [discriminate | reflexivity].
  - left. split; [discriminate | reflexivity].
  - destruct sq as [q|].
    + destruct (capture_wf g rf cf rt ct p Hwf Hp)
        as [[_ E]|(_ & b1 & g' & _ & _ & _ & E & _)]; rewrite E; simpl.
      * left. split; [discriminate | reflexivity].
      * right. exists rf, cf, rt, ct, p, (Some q). auto 15.
    + destruct (relocate_wf g rf cf rt ct p Hwf Hp Hon) as (g' & E & _).
      rewrite E. simpl. right. exists rf, cf, rt, ct, p, None. auto 15.
Qed.

(** X10: on a board of 8x8 squares, a call of [make_move] that does not
    return [True], because it returns [False] or raises, leaves the board,
    the turn and the game state exactly as they were. *)
Theorem rejected_move_unchanged (g : ChessVar) (string_from string_to : string) :
  wf_board (_board g) ->
  fst (make_move string_from string_to g) <> Ok true ->
  snd (make_move string_from string_to g) = g.
Proof.
  intros Hwf Hrej.
  destruct (make_move_wf_cases g string_from string_to Hwf)
    as [[_ E]|(rf & cf & rt & ct & p & sq & H)]; [exact E|].
  exfalso. apply Hrej. tauto.
Qed.

Lemma rejected_move_unchanged_witness :
  snd (make_move "a1" "a5" init) = init /\
  snd (make_move "e2" "e0" init) = init.
Proof.
  split.
  - apply (rejected_move_unchanged init "a1" "a5" wf_board_init). discriminate.
  - apply (rejected_move_unchanged init "e2" "e0" wf_board_init). discriminate.
Defined.

(** X11: whatever the two strings, a call of [make_move] on a board of 8x8
    squares leaves a board of 8x8 squares. *)
Theorem make_move_keeps_shape (g : ChessVar) (string_from string_to : string) :
  wf_board (_board g) ->
  wf_board (_board (snd (make_move string_from string_to g))).
Proof.
  intros Hwf.
  destruct (make_move_wf_cases g string_from string_to Hwf)
    as [[_ E]|(rf & cf & rt & ct & p & sq & _ & _ & _ & _ & _ & Hp & _ & _ &
               Hon & _ & _ & Hexec)].
  - rewrite E. exact Hwf.
  - destruct sq as [q|].
    + destruct (capture_wf g rf cf rt ct p Hwf Hp)
        as [[_ E]|(_ & b1 & g' & _ & _ & _ & E & W & _)]; [congruence|].
      assert (g' = snd (make_move string_from string_to g)) by congruence.
      subst g'. exact W.
    + destruct (relocate_wf g rf cf rt ct p Hwf Hp Hon) as (g' & E & W & _).
      assert (g' = snd (make_move string_from string_to g)) by congruence.
      subst g'. exact W.
Qed.

Lemma make_move_keeps_shape_witness :
  wf_board (_board (snd (make_move "h5" "f7" queen_raid))).
Proof.
  apply (make_move_keeps_shape queen_raid "h5" "f7" wf_board_queen_raid).
Defined.

(** X12: [make_move] creates no piece and turns no piece into another: a
    piece that stands on a square after the call stood on that square
    before, or it is the piece of the origin, arrived on the destination
    that was empty. *)
Theorem no_piece_created (g : ChessVar) (string_from string_to : string)
    (r c : Z) (p : Piece) :
  wf_board (_board g) ->
  on_board r c ->
  board_get (_board (snd (make_move string_from string_to g))) r c
    = Ok (Some p) ->
  board_get (_board g) r c = Ok (Some p) \/
  (exists row_from column_from,
     square_row string_from = Ok row_from /\
     square_column string_from = Ok column_from /\
     square_row string_to = Ok r /\
     square_column string_to = Ok c /\
     board_get (_board g) row_from column_from = Ok (Some p) /\
     board_get (_board g) r c = Ok None).
Proof.
  intros Hwf Hrc Hget.
  destruct (make_move_wf_cases g string_from string_to Hwf)
    as [[_ E]|(rf & cf & rt & ct & p0 & sq & _ & Hrf & Hcf & Hrt & Hct & Hp &
               Hsq & _ & Hon & _ & _ & Hexec)].
  - left. rewrite E in Hget. exact Hget.
  - destruct sq as [q|].
    + left.
      destruct (capture_wf g rf cf rt ct p0 Hwf Hp)
        as [[_ E]|(_ & b1 & g' & _ & W1 & C1 & E & W & _ & _ & C)];
        [congruence|].
      assert (g' = snd (make_move string_from string_to g)) by congruence.
      subst g'.
      rewrite (board_get_on_board _ W) in Hget by assumption.
      rewrite (board_get_on_board _ Hwf) by assumption.
      injection Hget as Hget. f_equal.
      assert (Hb1 : cell b1 r c = Some p).
      { destruct (C r c Hrc) as [Hin Hout].
        destruct (classic_in_blast rt ct r c) as [H|H].
        - rewrite (Hin H) in Hget. unfold blast_sq in Hget.
          destruct (cell b1 r c) as [p1|]; [|discriminate].
          destruct (negb _); [discriminate | exact Hget].
        - rewrite (Hout H) in Hget. exact Hget. }
      rewrite (C1 r c Hrc) in Hb1.
      destruct (_ && _); [discriminate | exact Hb1].
    + destruct (relocate_wf g rf cf rt ct p0 Hwf Hp Hon)
        as (g' & E & W & _ & _ & C).
      assert (g' = snd (make_move string_from string_to g)) by congruence.
      subst g'.
      rewrite (board_get_on_board _ W) in Hget by assumption.
      injection Hget as Hget. rewrite (C r c Hrc) in Hget.
      destruct (Z.eqb_spec r rt) as [->|]; simpl in Hget.
      * destruct (Z.eqb_spec c ct) as [->|]; simpl in Hget.
        -- right. exists rf, cf. injection Hget as <-. auto 10.
        -- left. rewrite (board_get_on_board _ Hwf) by assumption.
           destruct (_ && _); [discriminate | congruence].
      * left. rewrite (board_get_on_board _ Hwf) by assumption.
        destruct (_ && _); [discriminate | congruence].
Qed.

Lemma no_piece_created_witness :
  board_get (_board init) 4 4 = Ok (Some (mkPiece Pawn White)) \/
  (exists row_from column_from,
     square_row "e2" = Ok row_from /\
     square_column "e2" = Ok column_from /\
     square_row "e4" = Ok 4 /\
     square_column "e4" = Ok 4 /\
     board_get (_board init) row_from column_from = Ok (Some (mkPiece Pawn White)) /\
     board_get (_board init) 4 4 = Ok None).
Proof.
  apply (no_piece_created init "e2" "e4" 4 4 (mkPiece Pawn White) wf_board_init).
  - unfold on_board. lia.
  - reflexivity.
Defined.

(** X13: a call whose two strings name the same square of the board is
    never executed, also when the strings differ (trailing characters, or
    an index that wraps around): it returns [False] and changes nothing.
    The gate that stops it is the one on the mover's own pieces. *)
Theorem same_square_never_executed (g : ChessVar)
    (string_from string_to : string)
    (row_from column_from row_to column_to : Z) :
  wf_board (_board g) ->
  square_row string_from = Ok row_from ->
  square_column string_from = Ok column_from ->
  square_row string_to = Ok row_to ->
  square_column string_to = Ok column_to ->
  -8 <= row_from < 8 -> -8 <= column_from < 8 ->
  -8 <= row_to < 8 -> -8 <= column_to < 8 ->
  norm row_from = norm row_to -> norm column_from = norm column_to ->
  make_move string_from string_to g = (Ok false, g).
Proof.
  intros Hwf Hrf Hcf Hrt Hct Hvr Hvc Hvr' Hvc' Er Ec.
  rewrite (make_move_run g string_from string_to row_from column_from
             row_to column_to
             (cell (_board g) (norm row_from) (norm column_from))
             (cell (_board g) (norm row_from) (norm column_from)));
    try assumption.
  - destruct (negb (game_state_eqb _ _)); [reflexivity|].
    destruct (String.eqb _ _); [reflexivity|].
    destruct (cell _ _ _) as [p|]; [|reflexivity].
    destruct (negb (color_eqb _ _)) eqn:Ecol; [reflexivity|].
    destruct (negb (on_boardb _ _)); [reflexivity|].
    apply negb_false_iff in Ecol. simpl. rewrite Ecol. reflexivity.
  - apply (board_get_wf _ Hwf); assumption.
  - rewrite Er, Ec. apply (board_get_wf _ Hwf); assumption.
Qed.

Lemma same_square_never_executed_witness :
  make_move "e2" "e2x" init = (Ok false, init) /\
  make_move "e1" "e9" init = (Ok false, init).
Proof.
  split.
  - apply (same_square_never_executed init "e2" "e2x" 6 4 6 4 wf_board_init);
      try reflexivity; lia.
  - apply (same_square_never_executed init "e1" "e9" 7 4 (-1) 4 wf_board_init);
      try reflexivity; lia.
Defined.

(* ================================================================== *)
(** ** The two strings of a call *)










Lemma square_row_head (s : string) :
  square_row (substring 0 2 s) = square_row s.
Proof. destruct s as [|a [|b s]]; reflexivity. Qed.

Lemma square_column_head (s : string) :
  square_column (substring 0 2 s) = square_column s.
Proof. destruct s as [|a [|b s]]; reflexivity. Qed.

(** X15: [make_move] reads the first two characters of each string and
    nothing else: as long as the two strings differ, before and after
    cutting, what follows the second character changes neither the result
    nor the object. *)
Theorem trailing_characters_ignored (g : ChessVar)
    (string_from string_to : string) :
  string_from <> string_to ->
  substring 0 2 string_from <> substring 0 2 string_to ->
  make_move string_from string_to g
  = make_move (substring 0 2 string_from) (substring 0 2 string_to) g.
Proof.
  intros Hne Hne2. apply String.eqb_neq in Hne, Hne2.
  unfold make_move, bindM, get_game_state, lift, ret. cbv beta iota.
  rewrite Hne, Hne2, !square_row_head, !square_column_head. reflexivity.
Qed.

Lemma trailing_characters_ignored_witness :
  make_move "e2 to" "e4!" init = make_move "e2" "e4" init.
Proof.
  apply (trailing_characters_ignored init "e2 to" "e4!"); discriminate.
Defined.



(** X17: on a board of 8x8 squares, a call of [make_move] that returns
    [True] was made in an unfinished game, and afterwards either the game
    is still unfinished and the turn has passed to the other side, or the
    side that moved has won and the turn has stayed with it. *)
Theorem accepted_move_outcome (g : ChessVar) (string_from string_to : string) :
  wf_board (_board g) ->
  fst (make_move string_from string_to g) = Ok true ->
  _game_state g = UNFINISHED /\
  ((_game_state (snd (make_move string_from string_to g)) = UNFINISHED /\
    _turn (snd (make_move string_from string_to g)) = other (_turn g)) \/
   (_game_state (snd (make_move string_from string_to g)) = won (_turn g) /\
    _turn (snd (make_move string_from string_to g)) = _turn g)).
Proof.
  intros Hwf Hacc.
  destruct (make_move_wf_cases g string_from string_to Hwf)
    as [[Hrej _]|(rf & cf & rt & ct & p & sq & Hst & _ & _ & _ & _ & Hp & _ & _ &
                  Hon & _ & _ & Hexec)]; [contradiction|].
  split; [exact Hst|].
  destruct sq as [q|].
  - destruct (capture_wf g rf cf rt ct p Hwf Hp)
      as [[_ E]|(_ & b1 & g' & _ & _ & _ & E & _ & S & T & _)]; [congruence|].
    assert (g' = snd (make_move string_from string_to g)) by congruence.
    subst g'. rewrite S, T, Hst.
    destruct (king_in_blast _ _ _ _); auto.
  - destruct (relocate_wf g rf cf rt ct p Hwf Hp Hon) as (g' & E & _ & T & S & _).
    assert (g' = snd (make_move string_from string_to g)) by congruence.
    subst g'. rewrite S, T, Hst. auto.
Qed.

Lemma accepted_move_outcome_witness :
  _game_state (snd (make_move "h5" "f7" queen_raid)) = WHITE_WON /\
  _game_state (snd (make_move "e2" "e4" init)) = UNFINISHED.
Proof.
  assert (H1 : fst (make_move "h5" "f7" queen_raid) = Ok true)
    by (vm_compute; reflexivity).
  assert (H2 : fst (make_move "e2" "e4" init) = Ok true)
    by (vm_compute; reflexivity).
  split.
  - destruct (accepted_move_outcome queen_raid "h5" "f7" wf_board_queen_raid H1)
      as [_ [[H _]|[H _]]]; [vm_compute in H; discriminate H | exact H].
  - destruct (accepted_move_outcome init "e2" "e4" wf_board_init H2)
      as [_ [[H _]|[H _]]]; [exact H | vm_compute in H; discriminate H].
Defined.

(* ================================================================== *)
(** ** The end of the game *)

Lemma on_board_cases (r c : Z) :
  on_board r c ->
  In r [0; 1; 2; 3; 4; 5; 6; 7] /\ In c [0; 1; 2; 3; 4; 5; 6; 7].
Proof. unfold on_board. simpl. lia. Qed.

Lemma init_kings (color : Color) (r c : Z) :
  on_board r c ->
  cell (_board init) r c = Some (mkPiece King color) ->
  (r, c) = (match color with White => 7 | Black => 0 end, 4).
Proof.
  intros Hrc. apply on_board_cases in Hrc as [Hr Hc]. simpl in Hr, Hc.
  destruct color;
    repeat (destruct Hr as [<-|Hr]; [|]);
    try contradiction;
    repeat (destruct Hc as [<-|Hc]; [|]);
    try contradiction;
    vm_compute; intros H; first [reflexivity | discriminate H].
Qed.

Lemma game_invariant_init : game_invariant init.
Proof.
  split; [exact kings_invariant_init|]. split.
  - intros color r c r' c' Hrc Hrc' H H'.
    rewrite (init_kings color r c Hrc H), (init_kings color r' c' Hrc' H').
    reflexivity.
  - intros [|]; discriminate.
Qed.

Lemma won_not_unfinished (color : Color) : won color <> UNFINISHED.
Proof. destruct color; discriminate. Qed.

Lemma game_invariant_relocate (g g' : ChessVar)
    (row_from column_from row_to column_to : Z) (p : Piece) :
  game_invariant g ->
  _game_state g = UNFINISHED ->
  board_get (_board g) row_from column_from = Ok (Some p) ->
  board_get (_board g) row_to column_to = Ok None ->
  on_board row_to column_to ->
  relocate row_from column_from row_to column_to (Some p) g = (Ok true, g') ->
  game_invariant g'.
Proof.
  intros (Hk & Hone & _) Hst Hp Hto Hon Hexec.
  split; [eapply kings_invariant_relocate; eauto|].
  destruct Hk as [Hwf _].
  destruct (relocate_wf g row_from column_from row_to column_to p Hwf Hp Hon)
    as (g1 & E1 & W1 & T1 & S1 & C1).
  assert (g1 = g') by congruence. subst g1.
  destruct (board_get_wf_range _ Hwf _ _ _ Hp) as [Hvr Hvc].
  rewrite (board_get_wf _ Hwf) in Hp by assumption. injection Hp as Hp.
  pose proof (norm_range _ Hvr) as Hnr. pose proof (norm_range _ Hvc) as Hnc.
  split.
  - (* a king after the move sits where it sat, or arrived from the origin *)
    assert (Hsrc : forall color r c, on_board r c ->
              cell (_board g') r c = Some (mkPiece King color) ->
              ((r, c) = (row_to, column_to) /\
               cell (_board g) (norm row_from) (norm column_from)
                 = Some (mkPiece King color)) \/
              ((r, c) <> (row_to, column_to) /\
               (r, c) <> (norm row_from, norm column_from) /\
               cell (_board g) r c = Some (mkPiece King color))).
    { intros color r c Hrc H. rewrite (C1 r c Hrc) in H.
      destruct (Z.eqb_spec r row_to) as [->|Hr]; simpl in H.
      - destruct (Z.eqb_spec c column_to) as [->|Hc]; simpl in H.
        + left. split; [reflexivity | congruence].
        + right. destruct (_ && _) eqn:E; [discriminate|].
          split; [congruence|]. split; [|exact H].
          intros [= -> ->]. rewrite !Z.eqb_refl in E. discriminate.
      - right. destruct (_ && _) eqn:E; [discriminate|].
        split; [congruence|]. split; [|exact H].
        intros [= -> ->]. rewrite !Z.eqb_refl in E. discriminate. }
    intros color r c r' c' Hrc Hrc' H H'.
    assert (Horigin : on_board (norm row_from) (norm column_from))
      by (unfold on_board; lia).
    destruct (Hsrc color r c Hrc H) as [[E K]|(N1 & N2 & K)],
             (Hsrc color r' c' Hrc' H') as [[E' K']|(N1' & N2' & K')].
    + congruence.
    + exfalso. apply N2'. symmetry.
      apply (Hone color _ _ _ _ Horigin Hrc' K K').
    + exfalso. apply N2.
      symmetry. apply (Hone color _ _ _ _ Horigin Hrc K' K).
    + apply (Hone color _ _ _ _ Hrc Hrc' K K').
  - intros color Hwon. rewrite S1, Hst in Hwon.
    exfalso. apply (won_not_unfinished color). congruence.
Qed.

Lemma game_invariant_capture (g g' : ChessVar)
    (row_from column_from row_to column_to : Z) (p : Piece) :
  game_invariant g ->
  _game_state g = UNFINISHED ->
  board_get (_board g) row_from column_from = Ok (Some p) ->
  get_color p = _turn g ->
  kind p <> King ->
  capture row_from column_from row_to column_to (_turn g) g = (Ok true, g') ->
  game_invariant g'.
Proof.
  intros (Hk & Hone & _) Hst Hp Hcol Hkind Hexec.
  pose proof (kings_invariant_capture g row_from column_from row_to column_to
                p Hk Hp Hkind) as Hk'.
  rewrite Hexec in Hk'. simpl in Hk'.
  split; [exact Hk'|].
  destruct Hk as [Hwf Hkings].
  destruct (capture_wf g row_from column_from row_to column_to p Hwf Hp)
    as [[_ E]|(Hown & b1 & g1 & E1 & W1 & C1 & E & W & S & T & C)];
    [congruence|].
  assert (g1 = g') by congruence. subst g1.
  (* the capture only removes pieces *)
  assert (Hb1 : forall r c q, on_board r c ->
            cell b1 r c = Some q -> cell (_board g) r c = Some q).
  { intros r c q Hrc H. rewrite (C1 r c Hrc) in H.
    destruct (_ && _); [discriminate | exact H]. }
  assert (Hsub1 : forall r c q, on_board r c ->
            cell (_board g') r c = Some q -> cell b1 r c = Some q).
  { intros r c q Hrc H. destruct (C r c Hrc) as [Hin Hout].
    destruct (classic_in_blast row_to column_to r c) as [I|I].
    - rewrite (Hin I) in H. unfold blast_sq in H.
      destruct (cell b1 r c) as [q1|]; [|discriminate].
      destruct (negb _); [discriminate | exact H].
    - rewrite (Hout I) in H. exact H. }
  split.
  - intros color r c r' c' Hrc Hrc' H H'.
    apply (Hone color _ _ _ _ Hrc Hrc'); auto.
  - intros color Hwon. rewrite S, Hst in Hwon.
    destruct (king_in_blast (opp_king (_turn g)) b1 row_to column_to) eqn:Eopp;
      [|exfalso; apply (won_not_unfinished color); congruence].
    assert (color = _turn g) by (destruct color, (_turn g); simpl in Hwon; congruence).
    subst color. rewrite T. split; [reflexivity|]. split.
    + (* the mover's king is out of the blast and is not the capturing piece *)
      destruct (Hkings Hst (_turn g)) as (r & c & Hrc & Hcell).
      exists r, c. split; [exact Hrc|].
      destruct (board_get_wf_range _ Hwf _ _ _ Hp) as [Hvr Hvc].
      rewrite (board_get_wf _ Hwf) in Hp by assumption. injection Hp as Hp.
      assert (Hc1 : cell b1 r c = Some (mkPiece King (_turn g))).
      { rewrite (C1 r c Hrc).
        destruct (Z.eqb_spec r (norm row_from)) as [->|]; simpl; [|exact Hcell].
        destruct (Z.eqb_spec c (norm column_from)) as [->|]; simpl; [|exact Hcell].
        rewrite Hp in Hcell. injection Hcell as ->. simpl in Hkind. congruence. }
      destruct (C r c Hrc) as [_ Hout]. rewrite Hout; [exact Hc1|].
      intros Hin.
      assert (king_in_blast (own_king (_turn g)) (_board g) row_to column_to = true);
        [|congruence].
      apply king_in_blast_true. exists r, c, (mkPiece King (_turn g)).
      split; [exact Hin|]. split; [exact Hcell|]. apply own_king_spec. reflexivity.
    + (* the other king stood in the blast, alone of its colour *)
      intros (r & c & Hrc & Hcell).
      apply king_in_blast_true in Eopp as (r0 & c0 & q & Hin & Hq & Hopp).
      apply opp_king_spec in Hopp. subst q.
      pose proof Hin as (Hrc0 & _).
      assert ((r, c) = (r0, c0)) as [= -> ->].
      { apply (Hone (other (_turn g)) _ _ _ _ Hrc Hrc0); auto. }
      destruct (C r0 c0 Hrc0) as [Hblast _]. rewrite (Hblast Hin), Hq in Hcell.
      discriminate Hcell.
Qed.

Lemma game_invariant_make_move (g : ChessVar) (string_from string_to : string) :
  game_invariant g ->
  game_invariant (snd (make_move string_from string_to g)).
Proof.
  intros Hinv. pose proof Hinv as ([Hwf _] & _).
  destruct (make_move_cases g string_from string_to)
    as [ | e He | rf cf rt ct p sq Hst Hrf Hcf Hrt Hct Hp Hsq Hcol Hon Hown Hvalid];
    [exact Hinv | exact Hinv |].
  destruct sq as [q|].
  - assert (Hkind : kind p <> King).
    { intros Hk. unfold is_move_valid, King_is_move_valid in Hvalid.
      rewrite Hk in Hvalid. discriminate. }
    destruct (capture_wf g rf cf rt ct p Hwf Hp)
      as [[_ E]|(_ & b1 & g' & _ & _ & _ & E & _)]; rewrite E; simpl.
    + exact Hinv.
    + apply (game_invariant_capture g g' rf cf rt ct p); assumption.
  - destruct (relocate_wf g rf cf rt ct p Hwf Hp Hon) as (g' & E & _).
    rewrite E. simpl.
    apply (game_invariant_relocate g g' rf cf rt ct p); assumption.
Qed.

Lemma reachable_game_invariant (g : ChessVar) :
  reachable g -> game_invariant g.
Proof.
  induction 1 as [|g sf st _ IH].
  - exact game_invariant_init.
  - apply game_invariant_make_move. exact IH.
Qed.

(** X18: in every object reached from a fresh game by calls of [make_move],
    a won game has the turn with the winner, the winner's king on the board
    and no king of the other colour on the board. *)
Theorem won_game_kings (g : ChessVar) (color : Color) :
  reachable g ->
  _game_state g = won color ->
  _turn g = color /\
  (exists r c, on_board r c /\
     board_get (_board g) r c = Ok (Some (mkPiece King color))) /\
  ~ (exists r c, on_board r c /\
       board_get (_board g) r c = Ok (Some (mkPiece King (other color)))).
Proof.
  intros Hreach Hwon.
  destruct (reachable_game_invariant g Hreach) as ([Hwf _] & _ & Hend).
  destruct (Hend color Hwon) as (Ht & (r & c & Hrc & Hcell) & Hno).
  split; [exact Ht|]. split.
  - exists r, c. split; [exact Hrc|].
    rewrite (board_get_on_board _ Hwf) by assumption. congruence.
  - intros (r' & c' & Hrc' & Hget). apply Hno. exists r', c'.
    split; [exact Hrc'|].
    rewrite (board_get_on_board _ Hwf) in Hget by assumption. congruence.
Qed.

Lemma won_game_kings_witness :
  _turn (snd (make_move "h5" "f7" queen_raid)) = White /\
  (exists r c, on_board r c /\
     board_get (_board (snd (make_move "h5" "f7" queen_raid))) r c
       = Ok (Some (mkPiece King White))) /\
  ~ (exists r c, on_board r c /\
       board_get (_board (snd (make_move "h5" "f7" queen_raid))) r c
         = Ok (Some (mkPiece King Black))).
Proof.
  apply (won_game_kings (snd (make_move "h5" "f7" queen_raid)) White).
  - apply reachable_move. unfold queen_raid, play. cbn [fold_left fst snd].
    do 4 apply reachable_move. apply reachable_init.
  - vm_compute. reflexivity.
Defined.

(** X19: in every object reached from a fresh game by calls of [make_move],
    each colour has at most one king on the board. *)
Theorem at_most_one_king (g : ChessVar) (color : Color) (r c r' c' : Z) :
  reachable g ->
  on_board r c -> on_board r' c' ->
  board_get (_board g) r c = Ok (Some (mkPiece King color)) ->
  board_get (_board g) r' c' = Ok (Some (mkPiece King color)) ->
  (r, c) = (r', c').
Proof.
  intros Hreach Hrc Hrc' H H'.
  destruct (reachable_game_invariant g Hreach) as ([Hwf _] & Hone & _).
  rewrite (board_get_on_board _ Hwf) in H, H' by assumption.
  apply (Hone color r c r' c'); congruence.
Qed.

Lemma at_most_one_king_witness :
  (6, 4) = (6, 4).
Proof.
  apply (at_most_one_king knight_visit White 6 4 6 4).
  - unfold knight_visit, play. cbn [fold_left fst snd].
    do 6 apply reachable_move. apply reachable_init.
  - unfold on_board. lia.
  - unfold on_board. lia.
  - reflexivity.
  - reflexivity.
Defined.

(* ================================================================== *)
(** ** More on executed moves, the knight and the printed board *)

(** X20: after an accepted capture the origin square is empty (the
    capturing piece is nowhere on the board) and every square outside the
    3x3 neighbourhood of the destination, the origin apart, is as before. *)
Theorem capture_frame (g g' : ChessVar) (string_from string_to : string)
    (row_from column_from row_to column_to : Z) (q : Piece) :
  wf_board (_board g) ->
  square_row string_from = Ok row_from ->
  square_column string_from = Ok column_from ->
  square_row string_to = Ok row_to ->
  square_column string_to = Ok column_to ->
  board_get (_board g) row_to column_to = Ok (Some q) ->
  make_move string_from string_to g = (Ok true, g') ->
  board_get (_board g') row_from column_from = Ok None /\
  forall r c, on_board r c ->
    ~ in_blast row_to column_to r c ->
    (r, c) <> (norm row_from, norm column_from) ->
    board_get (_board g') r c = board_get (_board g) r c.
Proof.
  intros Hwf Hrf Hcf Hrt Hct Hto Hmove.
  destruct (capture_accepted g g' _ _ _ _ _ _ _ Hwf Hrf Hcf Hrt Hct Hto Hmove)
    as (p & b1 & _ & Hp & _ & _ & Hon & _ & Eb & W1 & C1 & W & _ & _ & C).
  destruct (board_get_wf_range _ Hwf _ _ _ Hp) as [Hvr Hvc].
  pose proof (norm_range _ Hvr) as Hnr. pose proof (norm_range _ Hvc) as Hnc.
  assert (Horigin : on_board (norm row_from) (norm column_from))
    by (unfold on_board; lia).
  split.
  - rewrite (board_get_wf _ W) by assumption. f_equal.
    assert (Hb1 : cell b1 (norm row_from) (norm column_from) = None).
    { rewrite (C1 _ _ Horigin), !Z.eqb_refl. reflexivity. }
    destruct (C _ _ Horigin) as [Hin Hout].
    destruct (classic_in_blast row_to column_to (norm row_from) (norm column_from))
      as [H|H].
    + rewrite (Hin H), Hb1. reflexivity.
    + rewrite (Hout H), Hb1. reflexivity.
  - intros r c Hrc Hnb Hno.
    rewrite (board_get_on_board _ W), (board_get_on_board _ Hwf) by assumption.
    f_equal. destruct (C r c Hrc) as [_ Hout]. rewrite (Hout Hnb), (C1 r c Hrc).
    destruct (Z.eqb_spec r (norm row_from)) as [->|]; simpl; [|reflexivity].
    destruct (Z.eqb_spec c (norm column_from)) as [->|]; simpl; [|reflexivity].
    congruence.
Qed.

Lemma capture_frame_witness :
  board_get (_board (snd (make_move "h5" "f7" queen_raid))) 3 7 = Ok None /\
  board_get (_board (snd (make_move "h5" "f7" queen_raid))) 0 0
    = Ok (Some (mkPiece Rook Black)).
Proof.
  destruct (capture_frame queen_raid (snd (make_move "h5" "f7" queen_raid))
              "h5" "f7" 3 7 1 5 (mkPiece Pawn Black)
              wf_board_queen_raid eq_refl eq_refl eq_refl eq_refl
              eq_refl eq_refl)
    as [Horigin Hframe].
  split; [exact Horigin|].
  rewrite Hframe; [reflexivity | | |].
  - unfold on_board. lia.
  - unfold in_blast. simpl. lia.
  - intros [=].
Defined.

(** X21: the knight rule reads neither the board nor the destination's
    occupant and never raises; it is true exactly for the eight L-shaped
    offsets, so a knight move always changes the parity of row + column. *)
Theorem knight_move_legality (board : Board)
    (row_from column_from row_to column_to : Z) (square_to : Square) :
  exists v,
    Knight_is_move_valid row_from column_from row_to column_to square_to board
      = Ok v /\
    (v = true <->
     In (row_to - row_from, column_to - column_from)
        [(1, 2); (1, -2); (-1, 2); (-1, -2); (2, 1); (2, -1); (-2, 1); (-2, -1)]) /\
    (v = true ->
     Z.odd (row_from + column_from) = negb (Z.odd (row_to + column_to))).
Proof.
  eexists. split; [reflexivity|].
  rewrite orb_true_iff, !andb_true_iff, !Z.eqb_eq.
  split.
  - simpl. split.
    + intros H.
      assert (Hc : (row_to - row_from = 1 \/ row_to - row_from = -1 \/
                     row_to - row_from = 2 \/ row_to - row_from = -2) /\
                   (column_to - column_from = 1 \/ column_to - column_from = -1 \/
                     column_to - column_from = 2 \/ column_to - column_from = -2))
        by lia.
      destruct Hc as [[Hr|[Hr|[Hr|Hr]]] [Hc|[Hc|[Hc|Hc]]]]; rewrite Hr, Hc;
        try tauto; exfalso; lia.
    + intros H. repeat destruct H as [H|H]; try contradiction;
        injection H as Hr Hc; lia.
  - intros H.
    assert (Hc : row_to + column_to = row_from + column_from + 3 \/
                 row_to + column_to = row_from + column_from + 1 \/
                 row_to + column_to = row_from + column_from + -1 \/
                 row_to + column_to = row_from + column_from + -3) by lia.
    destruct Hc as [->|[->|[->| ->]]]; generalize (row_from + column_from);
      intros x; rewrite Z.odd_add; simpl; destruct (Z.odd x); reflexivity.
Qed.

Lemma knight_move_legality_witness :
  Z.odd (7 + 1) = negb (Z.odd (5 + 2)).
Proof.
  destruct (knight_move_legality (_board init) 7 1 5 2 None) as (v & E & _ & H).
  apply H. injection E as <-. reflexivity.
Defined.

Lemma append_assoc (a b c : string) :
  String.append (String.append a b) c = String.append a (String.append b c).
Proof. induction a as [|x a IH]; simpl; [reflexivity | rewrite IH; reflexivity]. Qed.

Lemma append_length (a b : string) :
  String.length (String.append a b) = (String.length a + String.length b)%nat.
Proof. induction a as [|x a IH]; simpl; [reflexivity | rewrite IH; reflexivity]. Qed.

Lemma append_inj (a a' b b' : string) :
  String.length a = String.length a' ->
  String.append a b = String.append a' b' ->
  a = a' /\ b = b'.
Proof.
  revert a'. induction a as [|x a IH]; intros [|x' a'] Hlen H; simpl in *;
    try discriminate.
  - auto.
  - injection H as -> H. injection Hlen as Hlen.
    destruct (IH a' Hlen H) as [-> ->]. auto.
Qed.

Lemma print_square_length (sq : Square) :
  String.length (print_square sq) = 5%nat.
Proof. destruct sq as [[[] []]|]; reflexivity. Qed.

Lemma print_square_inj (s1 s2 : Square) :
  print_square s1 = print_square s2 -> s1 = s2.
Proof.
  destruct s1 as [[[] []]|], s2 as [[[] []]|]; simpl; intros H;
    first [reflexivity | discriminate H].
Qed.

Lemma print_squares_length (r : Row) :
  String.length (print_squares r) = (5 * length r)%nat.
Proof.
  induction r as [|sq r IH]; simpl; [reflexivity|].
  rewrite append_length, print_square_length, IH. lia.
Qed.

Lemma print_squares_inj (r1 r2 : Row) :
  length r1 = length r2 ->
  print_squares r1 = print_squares r2 -> r1 = r2.
Proof.
  revert r2. induction r1 as [|s1 r1 IH]; intros [|s2 r2] Hlen H; simpl in *;
    try discriminate.
  - reflexivity.
  - apply append_inj in H as [Hs Hr];
      [|rewrite !print_square_length; reflexivity].
    apply print_square_inj in Hs. injection Hlen as Hlen.
    rewrite Hs, (IH r2 Hlen Hr). reflexivity.
Qed.

Lemma list_getitem_wf_row (board : Board) (row : Z) :
  wf_board board -> 0 <= row < 8 ->
  exists r : Row, list_getitem board row = Ok r /\
    board !! Z.to_nat row = Some r /\ length r = 8%nat.
Proof.
  intros Hwf Hrow. destruct (wf_row board Hwf (Z.to_nat row)) as (r & E & L);
    [lia|].
  exists r. split; [|auto]. unfold list_getitem. destruct Hwf as [-> _].
  change (Z.of_nat 8) with 8. rewrite py_index_8 by lia.
  rewrite norm_on_board by lia. simpl. rewrite E. reflexivity.
Qed.

Lemma print_rows_wf (board : Board) (rows : list Z) :
  wf_board board -> (forall row, In row rows -> 0 <= row < 8) ->
  snd (print_rows board rows) = Ok tt.
Proof.
  intros Hwf. induction rows as [|row rows IH]; intros Hrows; simpl;
    [reflexivity|].
  destruct (list_getitem_wf_row board row Hwf) as (r & -> & _);
    [apply Hrows; left; reflexivity|].
  specialize (IH (fun x Hx => Hrows x (or_intror Hx))).
  destruct (print_rows board rows) as [out res]. exact IH.
Qed.

Lemma print_rows_inj (b1 b2 : Board) (rows : list Z) (tail : string) :
  wf_board b1 -> wf_board b2 ->
  (forall row, In row rows -> 0 <= row < 8) ->
  String.append (fst (print_rows b1 rows)) tail
  = String.append (fst (print_rows b2 rows)) tail ->
  forall row, In row rows -> b1 !! Z.to_nat row = b2 !! Z.to_nat row.
Proof.
  intros W1 W2. induction rows as [|x rows IH]; intros Hrows H row Hin;
    [destruct Hin|].
  cbn [print_rows] in H.
  destruct (list_getitem_wf_row b1 x W1) as (r1 & E1 & L1 & N1);
    [apply Hrows; left; reflexivity|].
  destruct (list_getitem_wf_row b2 x W2) as (r2 & E2 & L2 & N2);
    [apply Hrows; left; reflexivity|].
  rewrite E1, E2 in H.
  destruct (print_rows b1 rows) as [out1 res1] eqn:P1.
  destruct (print_rows b2 rows) as [out2 res2] eqn:P2.
  cbn [fst] in H. rewrite !append_assoc in H.
  apply append_inj in H as [_ H]; [|reflexivity].
  apply append_inj in H as [_ H]; [|reflexivity].
  apply append_inj in H as [Hcells H];
    [|rewrite !print_squares_length, N1, N2; reflexivity].
  apply append_inj in H as [_ H]; [|reflexivity].
  apply print_squares_inj in Hcells; [|congruence].
  destruct Hin as [<-|Hin].
  - congruence.
  - apply IH;
      [intros y Hy; apply Hrows; right; exact Hy
      | rewrite ?P1, ?P2; exact H
      | exact Hin].
Qed.

(** X22: on a board of 8x8 squares [print_board] ends without raising, and
    what it writes tells the board: two boards that print the same text
    are the same board. *)
Theorem print_board_faithful (g1 g2 : ChessVar) :
  wf_board (_board g1) -> wf_board (_board g2) ->
  snd (print_board g1) = Ok tt /\
  (fst (print_board g1) = fst (print_board g2) -> _board g1 = _board g2).
Proof.
  intros W1 W2.
  assert (Hrows : forall row, In row (py_range 0 8 1) -> 0 <= row < 8).
  { intros row H. apply in_py_range_up in H. exact H. }
  pose proof (print_rows_wf _ _ W1 Hrows) as R1.
  pose proof (print_rows_wf _ _ W2 Hrows) as R2.
  pose proof (print_rows_inj (_board g1) (_board g2) (py_range 0 8 1)
                (String.append "    a    b    c    d    e   f    g    h" newline)
                W1 W2 Hrows) as Hinj.
  unfold print_board.
  set (footer := String.append "    a    b    c    d    e   f    g    h" newline) in *.
  set (rows := py_range 0 8 1) in *.
  destruct (print_rows (_board g1) rows) as [out1 res1].
  destruct (print_rows (_board g2) rows) as [out2 res2].
  cbn [fst snd] in R1, R2, Hinj. subst res1 res2. cbn [fst snd].
  split; [reflexivity|]. intros H. specialize (Hinj H).
  apply list_eq. intros i.
  destruct (Nat.lt_ge_cases i 8) as [Hi|Hi].
  - rewrite <- (Nat2Z.id i). apply Hinj. apply in_py_range_up. lia.
  - destruct W1 as [L1 _], W2 as [L2 _].
    rewrite !lookup_ge_None_2 by lia. reflexivity.
Qed.

Lemma print_board_faithful_witness :
  snd (print_board init) = Ok tt /\
  (fst (print_board init) = fst (print_board init) -> _board init = _board init).
Proof.
  apply (print_board_faithful init init wf_board_init wf_board_init).
Defined.

(** X23: on a board of 8x8 squares, a call of [make_move] whose two
    strings name squares of the board returns a boolean: the exceptions of
    [make_move] come from strings that are no square names or name a square
    off the board, never from the rules or the explosion. *)
Theorem on_board_call_returns (g : ChessVar) (string_from string_to : string)
    (row_from column_from row_to column_to : Z) :
  wf_board (_board g) ->
  square_row string_from = Ok row_from ->
  square_column string_from = Ok column_from ->
  square_row string_to = Ok row_to ->
  square_column string_to = Ok column_to ->
  on_board row_from column_from ->
  on_board row_to column_to ->
  exists v, fst (make_move string_from string_to g) = Ok v.
Proof.
  intros Hwf Hrf Hcf Hrt Hct Hfrom Hto.
  pose proof (board_get_on_board _ Hwf _ _ Hfrom) as Hsf.
  pose proof (board_get_on_board _ Hwf _ _ Hto) as Hst.
  rewrite (make_move_run g string_from string_to row_from column_from
             row_to column_to _ _ Hrf Hcf Hrt Hct Hsf Hst).
  destruct (negb (game_state_eqb _ _)); [simpl; eauto|].
  destruct (String.eqb _ _); [simpl; eauto|].
  destruct (cell (_board g) row_from column_from) as [p|] eqn:Ep;
    [|simpl; eauto].
  destruct (negb (color_eqb _ _)) eqn:Ecol; [simpl; eauto|].
  destruct (negb (on_boardb _ _)); [simpl; eauto|].
  destruct (own_piece _ _) eqn:Eown; [simpl; eauto|].
  apply negb_false_iff in Ecol.
  destruct Hfrom as [Hr Hc].
  destruct (is_move_valid_wf _ Hwf row_from column_from row_to column_to)
    with (p := p) (square_to := cell (_board g) row_to column_to) as [v ->];
    [lia | lia | exact Hto | |].
  { intros [= -> ->]. rewrite Ep in Eown. simpl in Eown. congruence. }
  destruct v; [|simpl; eauto].
  rewrite <- Ep in Hsf. rewrite Ep in Hsf.
  destruct (cell (_board g) row_to column_to) as [q|].
  - destruct (capture_wf g row_from column_from row_to column_to p Hwf Hsf)
      as [[_ E]|(_ & b1 & g' & _ & _ & _ & E & _)]; rewrite E; simpl; eauto.
  - destruct (relocate_wf g row_from column_from row_to column_to p Hwf Hsf Hto)
      as (g' & E & _).
    rewrite E. simpl. eauto.
Qed.

Lemma on_board_call_returns_witness :
  exists v, fst (make_move "a1" "h8" init) = Ok v.
Proof.
  apply (on_board_call_returns init "a1" "h8" 7 0 0 7 wf_board_init
           eq_refl eq_refl eq_refl eq_refl);
    unfold on_board; lia.
Defined.
